(** * Search-task execution pipeline of [src/utils/engines.js]

    A shallow embedding of the orchestration code of the extension
    ([sendReceipt], [showEngineError], [prepareImageForUpload],
    [searchPinterest], [initSearch]) and the properties its
    specification states about it.

    JavaScript promises are run to completion: an [await]ed call either
    resolves with a value or rejects with an error, which is the result
    type [Res].  The code's effects (arrays mutated in place, messages
    handed to the extension's message bus, console output, network
    requests) are threaded through a [World], in the state-and-error
    monad [M].

    What the module imports is gathered in [Env]: the replies of
    storage, the message catalog, the upload limits, the conversion
    engine and the network are parameters of every definition.  The
    requests for the task and for the image may be rejected; a
    notification or a receipt handed to the bus is taken as sent.  The
    records of storage ([Task], [Image]) are typed as the extension
    writes them; the body of the provider's answer is untyped JSON. *)

From stdpp Require Import gmap strings list fin_maps pretty.

Set Warnings "-register-all".
Open Scope string_scope.
Open Scope Z_scope.
Open Scope list_scope.

(** ** JavaScript values and errors *)

(** Values obtained from [JSON.parse] (and [undefined], which property
    reads produce).  Numbers are restricted to integers. *)
Inductive JsVal : Type :=
| JUndefined
| JNull
| JBool (b : bool)
| JNum (n : Z)
| JStr (s : string)
| JArr (items : list JsVal)
| JObj (props : gmap string JsVal).

(** An [Error] object: what [err.name] and [err.message] read. *)
Record JsError : Type := mkError { errName : string; errMessage : string }.

(** [new Error(message)] *)
Definition Error (message : string) : JsError := mkError "Error" message.

(** [class EngineError extends Error], lines 196-201: the constructor
    sets [name] to ['EngineError']. *)
Definition EngineError (message : string) : JsError :=
  mkError "EngineError" message.

(** The error the engine raises when a property of [null] or
    [undefined] is read, or a non-function is called. *)
Definition TypeError (message : string) : JsError :=
  mkError "TypeError" message.

(** [Error.prototype.toString]. *)
Definition errToString (e : JsError) : string :=
  if String.eqb (errName e) "" then errMessage e
  else if String.eqb (errMessage e) "" then errName e
  else errName e +:+ ": " +:+ errMessage e.

(** The outcome of a call: a value, or a thrown error. *)
Inductive Res (A : Type) : Type :=
| Ok (a : A)
| Throw (e : JsError).
Arguments Ok {A} a.
Arguments Throw {A} e.

#[global] Instance Res_ret : MRet Res := fun A a => Ok a.
#[global] Instance Res_bind : MBind Res := fun A B f r =>
  match r with
  | Ok a => f a
  | Throw e => Throw e
  end.

(** JavaScript truthiness, as tested by [if (v)] and [!v]. *)
Definition truthy (v : JsVal) : bool :=
  match v with
  | JUndefined | JNull => false
  | JBool b => b
  | JNum n => negb (Z.eqb n 0)
  | JStr s => negb (String.eqb s "")
  | JArr _ | JObj _ => true
  end.

(** Property read [v.p], for the property names this module reads
    ([status], [data], [length], [id], [image_large_url], [description]):
    none of them is inherited from a built-in prototype, so an object
    answers with its own property, an array and a string answer to
    [length] only, and [null] and [undefined] throw.  (The length of a
    string is used for its truthiness only.) *)
Definition getProp (v : JsVal) (p : string) : Res JsVal :=
  match v with
  | JUndefined =>
      Throw (TypeError ("Cannot read properties of undefined (reading '" +:+ p +:+ "')"))
  | JNull =>
      Throw (TypeError ("Cannot read properties of null (reading '" +:+ p +:+ "')"))
  | JObj props => Ok (default JUndefined (props !! p))
  | JArr items =>
      Ok (if String.eqb p "length" then JNum (Z.of_nat (length items)) else JUndefined)
  | JStr s =>
      Ok (if String.eqb p "length" then JNum (Z.of_nat (String.length s)) else JUndefined)
  | JBool _ | JNum _ => Ok JUndefined
  end.

(** Strict inequality with a string literal, [v !== 'lit']. *)
Definition strictNeqStr (v : JsVal) (lit : string) : bool :=
  match v with
  | JStr s => negb (String.eqb s lit)
  | _ => true
  end.

(** ** Data model *)

Record Blob : Type := mkBlob { blobType : string; blobBytes : list Byte.byte }.

(** The image record kept in transient storage. *)
Record Image : Type := mkImage {
  imageDataUrl : string;
  imageFilename : string;
  imageType : string;
  imageSize : Z;
  imageBlob : option Blob
}.

Record Search : Type := mkSearch { assetType : string; searchOptions : JsVal }.

(** The task record answered to the first storage request. *)
Record Task : Type := mkTask {
  imageId : string;
  session : JsVal;
  search : Search
}.

(** Messages handed to [browser.runtime.sendMessage] and
    [sendLargeMessage], by their [id]. *)
Inductive Message : Type :=
| storageRequest (storageId : string)
| storageReceipt (storageIds : list string)
| notification (message : string) (type : string).

(** The argument of [showEngineError]; [message] and [errorId] may be
    left out. *)
Record ErrorParams : Type := mkParams {
  paramMessage : option string;
  paramErrorId : option string;
  paramEngine : string
}.

(** The options given to the conversion engine at line 214. *)
Record ConvertOptions : Type := mkConvert {
  newType : string;
  maxSize : Z;
  setBlob : bool
}.

Inductive FormEntry : Type :=
| FormFile (blob : Blob) (filename : string)
| FormText (value : string).

Record Request : Type := mkRequest {
  reqUrl : string;
  reqReferrer : string;
  reqMode : string;
  reqMethod : string;
  reqBody : list (string * FormEntry)
}.

(** A fetch response: its HTTP status and what [rsp.json()] settles to
    (the parsed body, or the parse error of a body that is not JSON). *)
Record Response : Type := mkResponse { rspStatus : Z; rspJson : Res JsVal }.

(** One normalized result of a search. *)
Record SearchResult : Type := mkResult {
  page : string;
  image : JsVal;
  text : JsVal
}.

(** The object passed to a search function at lines 126-131.
    [argStorageIds] is the address of the array created at line 109:
    the callee receives the array itself, not a copy. *)
Record SearchArgs : Type := mkArgs {
  argSession : JsVal;
  argSearch : Search;
  argImage : Image;
  argStorageIds : nat
}.

(** ** The collaborators imported from [utils/app], [utils/common] and
    the browser *)

Record Env : Type := mkEnv {
  (** [await waitForDocumentLoad()] *)
  waitForDocumentLoad : Res unit;
  (** the reply of the message bus to [{id: 'storageRequest', storageId}] *)
  taskReply : string -> Res (option Task);
  (** the reply to the same request sent through [sendLargeMessage] *)
  imageReply : string -> Res (option Image);
  (** [browser.i18n.getMessage(messageName, substitutions)] *)
  getMessage : option string -> option string -> string;
  (** [getMaxImageUploadSize(engine, {target})]: a byte count, or
      [undefined] *)
  getMaxImageUploadSize : string -> option string -> option Z;
  (** [convertProcessedImage(image, options)]: the converted image, or
      nothing *)
  convertProcessedImage : Image -> ConvertOptions -> option Image;
  (** [getLargeImageMessage(engine, maxSize)] *)
  getLargeImageMessage : string -> Z -> string;
  (** [dataUrlToBlob(dataUrl)] *)
  dataUrlToBlob : string -> Blob;
  (** [await fetch(url, init)] *)
  fetch : Request -> Res Response;
  (** the conversion of a value spliced into a template literal *)
  ToString : JsVal -> Res string
}.

(** ** State, events and the monad *)

Inductive Event : Type :=
| RuntimeSend (m : Message)      (* browser.runtime.sendMessage(m) *)
| LargeSend (m : Message)        (* sendLargeMessage({message: m, ...}) *)
| ConsoleLog (line : string)     (* console.log(line) *)
| Invoke (args : SearchArgs)     (* searchFn(args) is entered *)
| Fetch (req : Request).         (* fetch(req) *)

(** [arrays] holds the arrays of storage keys by address; [trace] is
    what the run has done so far, oldest event first. *)
Record World : Type := mkWorld {
  arrays : gmap nat (list string);
  trace : list Event
}.

Definition M (A : Type) : Type := World -> Res A * World.

#[global] Instance M_ret : MRet M := fun A a w => (Ok a, w).
#[global] Instance M_bind : MBind M := fun A B f m w =>
  match m w with
  | (Ok a, w') => f a w'
  | (Throw e, w') => (Throw e, w')
  end.

Definition throw {A : Type} (e : JsError) : M A := fun w => (Throw e, w).

Definition liftRes {A : Type} (r : Res A) : M A := fun w => (r, w).

(** [try { body } catch (err) { handler }]: the handler runs in the
    state the body left behind. *)
Definition tryCatch {A : Type} (body : M A) (handler : JsError -> M A) : M A :=
  fun w =>
    match body w with
    | (Ok a, w') => (Ok a, w')
    | (Throw e, w') => handler e w'
    end.

Definition emit (e : Event) : M unit :=
  fun w => (Ok tt, mkWorld (arrays w) (trace w ++ [e])).

(** An array literal: a new array at an unused address. *)
Definition newArray (items : list string) : M nat :=
  fun w =>
    let a := fresh (dom (arrays w)) in
    (Ok a, mkWorld (<[a := items]> (arrays w)) (trace w)).

Definition readArray (a : nat) : M (list string) :=
  fun w => (Ok (default [] (arrays w !! a)), w).

Definition writeArray (a : nat) (items : list string) : M unit :=
  fun w => (Ok tt, mkWorld (<[a := items]> (arrays w)) (trace w)).

(** ** [showEngineError], lines 59-72 *)

Definition truthyStr (s : option string) : bool :=
  match s with
  | Some s => negb (String.eqb s "")
  | None => false
  end.

(** The message of the notification: the literal one when it is truthy,
    the catalog text of [errorId] for the engine's display name
    otherwise. *)
Definition resolveMessage (env : Env) (p : ErrorParams) : string :=
  if truthyStr (paramMessage p) then default "" (paramMessage p)
  else getMessage env (paramErrorId p)
         (Some (getMessage env (Some ("engineName_" +:+ paramEngine p)) None)).

Definition engineNotification (env : Env) (p : ErrorParams) : Message :=
  notification (resolveMessage env p) (paramEngine p +:+ "Error").

Definition showEngineError (env : Env) (p : ErrorParams) : M unit :=
  emit (RuntimeSend (engineNotification env p)).

(** ** [sendReceipt], lines 85-97 *)

(** [while (storageIds.length) storageIds.pop()], unrolled [fuel]
    times. *)
Fixpoint popWhile (fuel : nat) (ids : list string) : list string :=
  match fuel with
  | O => ids
  | S fuel' =>
      match ids with
      | [] => ids
      | _ :: _ => popWhile fuel' (removelast ids)
      end
  end.

(** The loop pops once per element. *)
Definition popAll (ids : list string) : list string :=
  popWhile (length ids) ids.

Definition sendReceipt (storageIds : nat) : M unit :=
  ids ← readArray storageIds;
  if negb (Nat.eqb (length ids) 0) then
    let keys := ids in
    writeArray storageIds (popAll ids);;
    emit (RuntimeSend (storageReceipt keys))
  else mret tt.

(** ** [prepareImageForUpload], lines 203-227 *)

(** The assignment [image.imageBlob = blob]. *)
Definition withBlob (image : Image) (blob : Blob) : Image :=
  mkImage (imageDataUrl image) (imageFilename image) (imageType image)
    (imageSize image) (Some blob).

(** [if (maxSize)]: a number other than zero. *)
Definition configuredLimit (limit : option Z) : option Z :=
  match limit with
  | Some n => if Z.eqb n 0 then None else Some n
  | None => None
  end.

Definition prepareImageForUpload (env : Env) (image : Image) (engine : string)
    (target : option string) (newType : string) (setBlob : bool) : Res Image :=
  match configuredLimit (getMaxImageUploadSize env engine target) with
  | Some maxSize =>
      if Z.gtb (imageSize image) maxSize then
        match convertProcessedImage env image (mkConvert newType maxSize setBlob) with
        | Some converted => Ok converted
        | None => Throw (EngineError (getLargeImageMessage env engine maxSize))
        end
      else if setBlob then
        Ok (withBlob image (dataUrlToBlob env (imageDataUrl image)))
      else Ok image
  | None => Ok image
  end.

(** ** [searchPinterest], lines 157-194 *)

(** Lines 158-164.  [FormData.append] with a file name accepts only a
    [Blob] as the value. *)
Definition pinterestForm (image : Image) : Res (list (string * FormEntry)) :=
  match imageBlob image with
  | Some blob =>
      Ok [("image", FormFile blob (imageFilename image));
          ("x", FormText "0"); ("y", FormText "0");
          ("w", FormText "1"); ("h", FormText "1");
          ("base_scheme", FormText "https")]
  | None =>
      Throw (TypeError "Failed to execute 'append' on 'FormData': parameter 2 is not of type 'Blob'.")
  end.

Definition pinterestRequest (body : list (string * FormEntry)) : Request :=
  mkRequest "https://api.pinterest.com/v3/visual_search/extension/image/"
    "" "cors" "PUT" body.

(** The condition of lines 178-183, evaluated left to right with
    [||] cutting short. *)
Definition searchFailed (status : Z) (response : JsVal) : Res bool :=
  if negb (Z.eqb status 200) then Ok true
  else
    bodyStatus ← getProp response "status";
    if strictNeqStr bodyStatus "success" then Ok true
    else
      data ← getProp response "data";
      if negb (truthy data) then Ok true
      else
        len ← getProp data "length";
        Ok (negb (truthy len)).

(** The arrow function of lines 187-191. *)
Definition toResult (env : Env) (item : JsVal) : Res SearchResult :=
  id ← getProp item "id";
  idText ← ToString env id;
  imageUrl ← getProp item "image_large_url";
  description ← getProp item "description";
  Ok (mkResult ("https://pinterest.com/pin/" +:+ idText +:+ "/") imageUrl description).

(** [data.map(f)]: only an array has a [map] method. *)
Definition arrayMap {B : Type} (data : JsVal) (f : JsVal -> Res B) : Res (list B) :=
  match data with
  | JArr items => mapM f items
  | _ => Throw (TypeError "response.data.map is not a function")
  end.

(** Lines 176-193: what the function does with the response. *)
Definition pinterestResults (env : Env) (rsp : Response) : Res (list SearchResult) :=
  response ← rspJson rsp;
  failed ← searchFailed (rspStatus rsp) response;
  if (failed : bool) then Throw (Error "search failed")
  else
    data ← getProp response "data";
    arrayMap data (toResult env).

Definition searchPinterest (env : Env) (args : SearchArgs) : M (list SearchResult) :=
  body ← liftRes (pinterestForm (argImage args));
  emit (Fetch (pinterestRequest body));;
  rsp ← liftRes (fetch env (pinterestRequest body));
  liftRes (pinterestResults env rsp).

(** ** [initSearch], lines 99-155 *)

Definition sessionExpired (engine : string) : ErrorParams :=
  mkParams None (Some "error_sessionExpiredEngine") engine.

(** Lines 140-145. *)
Definition classify (engine : string) (err : JsError) : ErrorParams :=
  if String.eqb (errName err) "EngineError"
  then mkParams (Some (errMessage err)) None engine
  else mkParams None (Some "error_engine") engine.

(** Lines 138-150, the [catch] block. *)
Definition onError {A : Type} (env : Env) (engine : string) (storageIds : nat)
    (err : JsError) : M A :=
  sendReceipt storageIds;;
  showEngineError env (classify engine err);;
  emit (ConsoleLog (errToString err));;
  throw err.

(** Lines 122-124: only an image asset is adapted, with the defaults
    of [target], [newType] and [setBlob]. *)
Definition adaptForSearch (env : Env) (engine : string) (task : Task)
    (image : Image) : Res Image :=
  if String.eqb (assetType (search task)) "image"
  then prepareImageForUpload env image engine None "" true
  else Ok image.

(** Lines 112-136, the [try] block. *)
Definition trySearch {A : Type} (env : Env) (searchFn : SearchArgs -> M A)
    (engine : string) (task : Task) (storageIds : nat) : M unit :=
  emit (LargeSend (storageRequest (imageId task)));;
  image ← liftRes (imageReply env (imageId task));
  match image with
  | Some image =>
      image ← liftRes (adaptForSearch env engine task image);
      let args := mkArgs (session task) (search task) image storageIds in
      emit (Invoke args);;
      searchFn args;;
      mret tt
  | None =>
      sendReceipt storageIds;;
      showEngineError env (sessionExpired engine)
  end.

Definition initSearch {A : Type} (env : Env) (searchFn : SearchArgs -> M A)
    (engine taskId : string) : M unit :=
  liftRes (waitForDocumentLoad env);;
  emit (RuntimeSend (storageRequest taskId));;
  task ← liftRes (taskReply env taskId);
  match task with
  | Some task =>
      storageIds ← newArray [taskId; imageId task];
      tryCatch (trySearch env searchFn engine task storageIds)
               (onError env engine storageIds)
  | None => showEngineError env (sessionExpired engine)
  end.

(** ** Search functions written with this module's helpers

    A search function receives the array of storage keys and may
    acknowledge it itself with [sendReceipt(storageIds)], report with
    [showEngineError] and [console.log], and then resolves or throws. *)
Inductive EngineStep : Type :=
| DoSendReceipt
| DoShowEngineError (p : ErrorParams)
| DoConsoleLog (line : string).

Definition runStep (env : Env) (args : SearchArgs) (step : EngineStep) : M unit :=
  match step with
  | DoSendReceipt => sendReceipt (argStorageIds args)
  | DoShowEngineError p => showEngineError env p
  | DoConsoleLog line => emit (ConsoleLog line)
  end.

Fixpoint runSteps (env : Env) (args : SearchArgs) (steps : list EngineStep) : M unit :=
  match steps with
  | [] => mret tt
  | step :: rest => runStep env args step;; runSteps env args rest
  end.

Definition scriptedSearch (env : Env) (steps : list EngineStep) (outcome : Res unit)
    (args : SearchArgs) : M unit :=
  runSteps env args steps;; liftRes outcome.

(** ** Observations on traces *)

Definition isReceipt (e : Event) : bool :=
  match e with
  | RuntimeSend (storageReceipt _) => true
  | _ => false
  end.

Definition isNotification (e : Event) : bool :=
  match e with
  | RuntimeSend (notification _ _) => true
  | _ => false
  end.

Definition isInvoke (e : Event) : bool :=
  match e with
  | Invoke _ => true
  | _ => false
  end.

(** The events a run adds to the trace it starts from. *)
Definition added (before after : World) : list Event :=
  drop (length (trace before)) (trace after).

(** ** Concrete collaborators, for running the model

    The scenario of the specification: task ["t1"] refers to image
    ["i1"], a 2 MiB image, for an engine whose limit is 1 MiB. *)

(** [ToString] on the values of [JsVal]: an array joins its elements
    with commas, [null] and [undefined] elements giving the empty
    string; an object shadowing [toString] with a JSON value cannot be
    converted. *)
Fixpoint jsToString (v : JsVal) : Res string :=
  match v with
  | JUndefined => Ok "undefined"
  | JNull => Ok "null"
  | JBool b => Ok (if b then "true" else "false")
  | JNum n => Ok (pretty n)
  | JStr s => Ok s
  | JArr items =>
      (fix join (l : list JsVal) : Res string :=
         match l with
         | [] => Ok ""
         | x :: rest =>
             s ← match x with
                 | JUndefined | JNull => Ok ""
                 | _ => jsToString x
                 end;
             match rest with
             | [] => Ok s
             | _ :: _ => r ← join rest; Ok (s +:+ "," +:+ r)
             end
         end) items
  | JObj props =>
      match props !! "toString" with
      | Some _ => Throw (TypeError "Cannot convert object to primitive value")
      | None => Ok "[object Object]"
      end
  end.

Definition sampleCatalog (name subst : option string) : string :=
  match name with
  | Some id =>
      if String.eqb id "engineName_pinterest" then "Pinterest"
      else if String.eqb id "error_sessionExpiredEngine"
      then "The session has expired: " +:+ default "" subst
      else if String.eqb id "error_engine"
      then "Something went wrong: " +:+ default "" subst
      else ""
  | None => ""
  end.

Definition sampleBlob (dataUrl : string) : Blob := mkBlob "image/png" [].

Definition sampleImage : Image :=
  mkImage "data:image/png;base64,AAAA" "image.png" "image/png" 2097152 None.

Definition sampleSmallImage : Image :=
  mkImage "data:image/png;base64,AA" "small.png" "image/png" 4096 None.

Definition sampleConverted : Image :=
  mkImage "data:image/jpeg;base64,BBBB" "image.jpg" "image/jpeg" 943718
    (Some (mkBlob "image/jpeg" [])).

Definition sampleTask : Task :=
  mkTask "i1" (JObj ∅) (mkSearch "image" JUndefined).

Definition sampleEnv (task : Res (option Task)) (stored : Res (option Image))
    (limit : option Z) (converted : option Image) (rsp : Res Response) : Env :=
  mkEnv (Ok tt)
    (fun id => if String.eqb id "t1" then task else Ok None)
    (fun id => if String.eqb id "i1" then stored else Ok None)
    sampleCatalog
    (fun _ _ => limit)
    (fun _ options =>
       match converted with
       | Some c => if Z.leb (imageSize c) (maxSize options) then Some c else None
       | None => None
       end)
    (fun engine limit => "Image too large for " +:+ engine)
    sampleBlob
    (fun _ => rsp)
    jsToString.

Definition samplePin (id url description : string) : JsVal :=
  JObj {[ "id" := JStr id; "image_large_url" := JStr url;
          "description" := JStr description ]}.

Definition sampleBody : JsVal :=
  JObj {[ "status" := JStr "success";
          "data" := JArr [samplePin "11" "https://i.pinimg.com/a.jpg" "first";
                          samplePin "22" "https://i.pinimg.com/b.jpg" "second"] ]}.

Definition emptyWorld : World := mkWorld ∅ [].

(** ** The contract of the conversion engine *)

(** Modelled from the spec: [convertProcessedImage] of [utils/app], whose
    code is not part of this module.  The specification has it asked for
    "a result at or under [limit] bytes", and it may yield "no usable
    result": what it does return fits the size it was given. *)
Definition conversionWithinLimit (env : Env) : Prop :=
  forall (image : Image) (options : ConvertOptions) (converted : Image),
    convertProcessedImage env image options = Some converted ->
    imageSize converted <= maxSize options.

(** ** Notions used to state the properties *)

(** The search function built its request and the provider answered it
    with [rsp]. *)
Definition answered (env : Env) (args : SearchArgs) (rsp : Response) : Prop :=
  exists body,
    pinterestForm (argImage args) = Ok body /\
    fetch env (pinterestRequest body) = Ok rsp.

(** The body is an object whose [status] is ['success'] and whose [data]
    is the non-empty array [items]. *)
Definition successBody (response : JsVal) (items : list JsVal) : Prop :=
  exists props,
    response = JObj props /\
    props !! "status" = Some (JStr "success") /\
    props !! "data" = Some (JArr items) /\
    items <> [].


(** How line 187-191 relate an item of [data] to its result. *)
Definition mappedFrom (env : Env) (item : JsVal) (r : SearchResult) : Prop :=
  exists id idText,
    getProp item "id" = Ok id /\
    ToString env id = Ok idText /\
    page r = "https://pinterest.com/pin/" +:+ idText +:+ "/" /\
    getProp item "image_large_url" = Ok (image r) /\
    getProp item "description" = Ok (text r).

(** The state in which the [try] block of [initSearch] starts: the task
    has been requested and the array of its two keys created. *)
Definition taskFetched (taskId : string) (task : Task) (w : World) : World :=
  mkWorld (<[fresh (dom (arrays w)) := [taskId; imageId task]]> (arrays w))
          (trace w ++ [RuntimeSend (storageRequest taskId)]).

(** What [sendReceipt(storageIds)] sends in a given state: the keys the
    array still holds, if any. *)
Definition receiptEvents (storageIds : nat) (w : World) : list Event :=
  match default [] (arrays w !! storageIds) with
  | [] => []
  | keys => [RuntimeSend (storageReceipt keys)]
  end.

(** What [sendReceipt(storageIds)] leaves in the store: the array
    emptied, if it held keys. *)
Definition clearKeys (storageIds : nat) (store : gmap nat (list string))
    : gmap nat (list string) :=
  match default [] (store !! storageIds) with
  | [] => store
  | _ :: _ => <[storageIds := []]> store
  end.

(** The receipt of a task has been sent at most once since the trace
    [before]: either the array still holds the keys and no receipt went
    out, or the array is empty and exactly one receipt, carrying the
    keys, went out. *)
Definition receiptOnce (storageIds : nat) (keys : list string)
    (before : list Event) (w : World) : Prop :=
  exists events,
    trace w = before ++ events /\
    ((arrays w !! storageIds = Some keys /\ List.filter isReceipt events = []) \/
     (arrays w !! storageIds = Some [] /\
      List.filter isReceipt events = [RuntimeSend (storageReceipt keys)])).

(** The state in which the search function is entered with [args]. *)
Definition searchEntered (taskId : string) (task : Task) (args : SearchArgs)
    (w : World) : World :=
  mkWorld (arrays (taskFetched taskId task w))
          (trace w ++ [RuntimeSend (storageRequest taskId);
                       LargeSend (storageRequest (imageId task));
                       Invoke args]).

(** The notification of an expired session, for an engine. *)
Definition sessionExpiredNotification (env : Env) (engine : string) : Message :=
  notification
    (getMessage env (Some "error_sessionExpiredEngine")
       (Some (getMessage env (Some ("engineName_" +:+ engine)) None)))
    (engine +:+ "Error").

(** The notification of a failure that is not an [EngineError]: the
    catalog text of [error_engine], which does not depend on the
    error. *)
Definition genericNotification (env : Env) (engine : string) : Message :=
  notification
    (getMessage env (Some "error_engine")
       (Some (getMessage env (Some ("engineName_" +:+ engine)) None)))
    (engine +:+ "Error").

(** A search function that keeps to [receiptOnce]: it touches the array
    of keys and sends receipts through [sendReceipt] only. *)
Definition preservesReceipt {A : Type} (searchFn : SearchArgs -> M A) : Prop :=
  forall args keys before w,
    keys <> [] ->
    receiptOnce (argStorageIds args) keys before w ->
    receiptOnce (argStorageIds args) keys before (snd (searchFn args w)).

(** ** [getValidHostname], lines 15-21

    [window.location.hostname] is the first argument. *)

(** [items.includes(x)] on an array of strings. *)
Fixpoint includes (items : list string) (x : string) : bool :=
  match items with
  | [] => false
  | item :: rest => if String.eqb item x then true else includes rest x
  end.

Definition getValidHostname (hostname : string) (validHostnames : list string)
    (engine : string) : Res string :=
  if negb (includes validHostnames hostname)
  then Throw (Error ("Invalid " +:+ engine +:+ " hostname: " +:+ hostname))
  else Ok hostname.

(** ** [uploadCallback], lines 74-83

    The callback is called, not awaited: what is caught is what it
    throws while it runs. *)
Definition uploadCallback {X B : Type} (env : Env) (xhr : X)
    (callback : X -> M B) (engine : string) : M unit :=
  tryCatch (callback xhr;; mret tt)
    (fun err =>
       showEngineError env (mkParams None (Some "error_engine") engine);;
       emit (ConsoleLog (errToString err));;
       throw err).

(** ** [setFileInputData], lines 23-57 *)



    (* document.dispatchEvent(new CustomEvent(name, {detail})) *)









(** A task for an asset that is not an image. *)
Definition sampleUrlTask : Task :=
  mkTask "i1" (JObj ∅) (mkSearch "url" JUndefined).

(** ** Further notions used to state properties *)

Definition isFetch (e : Event) : bool :=
  match e with
  | Fetch _ => true
  | _ => false
  end.

Definition isConsoleLog (e : Event) : bool :=
  match e with
  | ConsoleLog _ => true
  | _ => false
  end.

(** A search function that only adds to the trace, and adds no event of
    the given kind. *)
Definition addsNo {A : Type} (kind : Event -> bool) (searchFn : SearchArgs -> M A)
    : Prop :=
  forall args w,
    exists events,
      trace (snd (searchFn args w)) = trace w ++ events /\
      List.filter kind events = [].

(** A search function that only adds to the trace. *)
Definition extendsTrace {A : Type} (searchFn : SearchArgs -> M A) : Prop :=
  addsNo (fun _ => false) searchFn.

(** Every search function entered in these events was given an image of
    at most [limit] bytes. *)
Definition invokedWithin (limit : Z) (events : list Event) : Prop :=
  forall args, Invoke args ∈ events -> imageSize (argImage args) <= limit.

(** * Properties *)

(** Unfolds the plumbing of [M], so that a run reduces to the replies of
    the collaborators. *)
Ltac run_M := unfold mbind, M_bind, liftRes, emit.

(** ** Image adaptation *)

Section Adaptation.

Variable env : Env.

Lemma configuredLimit_Some (limit : option Z) (n : Z) :
  limit = Some n -> n <> 0 -> configuredLimit limit = Some n.
Proof.
  intros -> Hn. simpl. destruct (Z.eqb_spec n 0) as [E | _]; [contradiction | reflexivity].
Qed.




(** C7.  An image at or under the configured limit comes back with its
    data URL, file name, type and size as they were; its blob is the one
    made from the data URL when [setBlob] is requested, and untouched
    otherwise. *)
Theorem prepareImageForUpload_within_limit (image : Image) (engine : string)
    (target : option string) (newType : string) (setBlob : bool) (limit : Z) :
  getMaxImageUploadSize env engine target = Some limit ->
  limit <> 0 ->
  imageSize image <= limit ->
  exists result,
    prepareImageForUpload env image engine target newType setBlob = Ok result /\
    imageDataUrl result = imageDataUrl image /\
    imageFilename result = imageFilename image /\
    imageType result = imageType image /\
    imageSize result = imageSize image /\
    imageBlob result
    = if setBlob then Some (dataUrlToBlob env (imageDataUrl image)) else imageBlob image.
Proof.
  intros Hlimit Hnz Hsize.
  unfold prepareImageForUpload.
  rewrite (configuredLimit_Some _ _ Hlimit Hnz).
  assert (Hgt : Z.gtb (imageSize image) limit = false).
  { destruct (Z.gtb_spec (imageSize image) limit); [lia | reflexivity]. }
  rewrite Hgt.
  destruct setBlob; eexists; (split; [reflexivity |]); simpl; auto.
Qed.

End Adaptation.


(** A 4096-byte image under the same limit. *)
Lemma prepareImageForUpload_within_limit_witness :
  let env := sampleEnv (Ok None) (Ok None) (Some 1048576) None
               (Throw (Error "offline")) in
  exists result,
    prepareImageForUpload env sampleSmallImage "pinterest" None "" true = Ok result /\
    imageDataUrl result = imageDataUrl sampleSmallImage /\
    imageFilename result = imageFilename sampleSmallImage /\
    imageType result = imageType sampleSmallImage /\
    imageSize result = imageSize sampleSmallImage /\
    imageBlob result = Some (dataUrlToBlob env (imageDataUrl sampleSmallImage)).
Proof.
  intros env.
  apply (prepareImageForUpload_within_limit env sampleSmallImage "pinterest" None "" true 1048576).
  - reflexivity.
  - lia.
  - simpl. lia.
Defined.



(** ** The reference provider *)

Section Pinterest.

Variable env : Env.

Lemma mapM_Res_cons {A B : Type} (f : A -> Res B) (x : A) (l : list A) :
  mapM f (x :: l)
  = match f x with
    | Ok y => match mapM f l with
              | Ok k => Ok (y :: k)
              | Throw e => Throw e
              end
    | Throw e => Throw e
    end.
Proof. reflexivity. Qed.

Lemma mapM_Ok_Forall2 {A B : Type} (f : A -> Res B) (l : list A) (rs : list B) :
  mapM f l = Ok rs <-> Forall2 (fun x r => f x = Ok r) l rs.
Proof.
  revert rs. induction l as [| x l IH]; intros rs.
  - split.
    + intros [= <-]. constructor.
    + intros H. inversion H. reflexivity.
  - rewrite mapM_Res_cons. split.
    + destruct (f x) as [y |] eqn:Ey; [| discriminate].
      destruct (mapM f l) as [k |] eqn:Ek; [| discriminate].
      intros [= <-]. constructor; [assumption |]. apply IH. reflexivity.
    + intros H. inversion H as [| x' y l' k Hy Hk]; subst.
      rewrite Hy. apply IH in Hk. rewrite Hk. reflexivity.
Qed.

Lemma searchPinterest_answered (args : SearchArgs) (w : World)
    (body : list (string * FormEntry)) (rsp : Response) :
  pinterestForm (argImage args) = Ok body ->
  fetch env (pinterestRequest body) = Ok rsp ->
  searchPinterest env args w
  = (pinterestResults env rsp,
     mkWorld (arrays w) (trace w ++ [Fetch (pinterestRequest body)])).
Proof.
  intros Hform Hfetch. unfold searchPinterest. run_M.
  rewrite Hform. rewrite Hfetch. reflexivity.
Qed.

Lemma searchPinterest_Ok_inv (args : SearchArgs) (w w' : World)
    (results : list SearchResult) :
  searchPinterest env args w = (Ok results, w') ->
  exists rsp, answered env args rsp /\ pinterestResults env rsp = Ok results.
Proof.
  unfold searchPinterest. run_M.
  destruct (pinterestForm (argImage args)) as [body |] eqn:Hform; [| discriminate].
  destruct (fetch env (pinterestRequest body)) as [rsp |] eqn:Hfetch; [| discriminate].
  intros [= Hres _]. exists rsp. split; [exists body; auto | assumption].
Qed.

(** The guard lets a response through only if it is a 200 whose body is
    an object with the success status and a truthy [data] of truthy
    [length]. *)
Lemma searchFailed_false_inv (status : Z) (response : JsVal) :
  searchFailed status response = Ok false ->
  status = 200 /\
  exists props data len,
    response = JObj props /\
    props !! "status" = Some (JStr "success") /\
    default JUndefined (props !! "data") = data /\
    truthy data = true /\
    getProp data "length" = Ok len /\
    truthy len = true.
Proof.
  unfold searchFailed.
  destruct (Z.eqb_spec status 200) as [-> | Hne]; simpl; [| discriminate].
  intros H. split; [reflexivity |].
  destruct response as [| | b | n | s | items | props]; simpl in H; try discriminate.
  unfold mbind, Res_bind in H.
  destruct (props !! "status") as [st |] eqn:Est; simpl in H; [| discriminate].
  destruct st as [| | b | n | s | items | props']; simpl in H; try discriminate.
  destruct (String.eqb_spec s "success") as [-> | Hs]; simpl in H; [| discriminate].
  set (data := default JUndefined (props !! "data")) in *.
  destruct (truthy data) eqn:Etruthy; simpl in H; [| discriminate].
  destruct (getProp data "length") as [len |] eqn:Elen; [| discriminate].
  injection H as H. apply negb_false_iff in H.
  exists props, data, len. repeat split; auto.
Qed.


(** A response that passes the guard and is mapped has an array for
    [data]. *)
Lemma pinterestResults_Ok_inv (rsp : Response) (results : list SearchResult) :
  pinterestResults env rsp = Ok results ->
  rspStatus rsp = 200 /\
  exists response items,
    rspJson rsp = Ok response /\
    successBody response items /\
    mapM (toResult env) items = Ok results.
Proof.
  unfold pinterestResults, mbind, Res_bind.
  destruct (rspJson rsp) as [response |] eqn:Ejson; [| discriminate].
  destruct (searchFailed (rspStatus rsp) response) as [[|] |] eqn:Efail; try discriminate.
  apply searchFailed_false_inv in Efail
    as (Hstatus & props & data & len & -> & Hst & Hdata & Htruthy & Hlen & Hlentruthy).
  simpl. rewrite Hdata. intros Hmap. split; [assumption |].
  destruct data as [| | b | n | s | items | props']; simpl in Hmap; try discriminate.
  exists (JObj props), items. split; [reflexivity |]. split; [| assumption].
  exists props. repeat split; auto.
  - destruct (props !! "data") as [d |]; simpl in Hdata; [congruence | discriminate].
  - intros ->. simpl in Hlen. injection Hlen as <-. discriminate.
Qed.


Lemma toResult_mappedFrom (item : JsVal) (r : SearchResult) :
  toResult env item = Ok r -> mappedFrom env item r.
Proof.
  unfold toResult, mbind, Res_bind.
  destruct (getProp item "id") as [id |] eqn:Eid; [| discriminate].
  destruct (ToString env id) as [idText |] eqn:Etext; [| discriminate].
  destruct (getProp item "image_large_url") as [url |] eqn:Eurl; [| discriminate].
  destruct (getProp item "description") as [description |] eqn:Edesc; [| discriminate].
  intros [= <-]. exists id, idText. simpl. auto.
Qed.





(** C6.  A call that returns results got them from the [data] array of
    the provider's answer: one result per item, in the same order, each
    made of the pin URL for the item's [id], its [image_large_url] and
    its [description]. *)
Theorem searchPinterest_maps_in_order (args : SearchArgs) (w w' : World)
    (results : list SearchResult) :
  searchPinterest env args w = (Ok results, w') ->
  exists rsp props items,
    answered env args rsp /\
    rspJson rsp = Ok (JObj props) /\
    props !! "data" = Some (JArr items) /\
    length results = length items /\
    Forall2 (mappedFrom env) items results /\
    (forall (i : nat) item,
        items !! i = Some item ->
        exists r, results !! i = Some r /\ mappedFrom env item r).
Proof.
  intros Hrun.
  apply searchPinterest_Ok_inv in Hrun as (rsp & Hans & Hres).
  apply pinterestResults_Ok_inv in Hres
    as (_ & response & items & Hjson & (props & -> & _ & Hdata & _) & Hmap).
  apply mapM_Ok_Forall2 in Hmap.
  assert (Hall : Forall2 (mappedFrom env) items results).
  { eapply Forall2_impl; [exact Hmap |]. intros item r. apply toResult_mappedFrom. }
  exists rsp, props, items. repeat split; auto.
  - symmetry. eapply Forall2_length. exact Hall.
  - intros i item Hi.
    destruct (Forall2_lookup_l _ _ _ _ _ Hall Hi) as (r & Hr & Hrel). eauto.
Qed.

(** C10.  The body is parsed before the status is looked at.  When
    [rsp.json()] rejects, the call throws that very error whatever the
    HTTP status is, not ['search failed']; and when the call does throw
    ['search failed'], the body had parsed (or the parse error was that
    very error). *)
Theorem searchPinterest_parse_error_first (args : SearchArgs) (w : World)
    (rsp : Response) :
  answered env args rsp ->
  (forall e, rspJson rsp = Throw e -> fst (searchPinterest env args w) = Throw e)
  /\
  (fst (searchPinterest env args w) = Throw (Error "search failed") ->
   (exists response, rspJson rsp = Ok response) \/
   rspJson rsp = Throw (Error "search failed")).
Proof.
  intros (body & Hform & Hfetch).
  rewrite (searchPinterest_answered args w body rsp Hform Hfetch). simpl.
  unfold pinterestResults, mbind, Res_bind. split.
  - intros e Hjson. rewrite Hjson. reflexivity.
  - destruct (rspJson rsp) as [response | e]; [eauto | intros [= ->]; auto].
Qed.

(** Which items line 187 can map: those that are not [null] (or
    [undefined]) and whose [id] converts to a string. *)
Lemma toResult_Ok_iff (item : JsVal) :
  (exists r, toResult env item = Ok r) <->
  item <> JNull /\ item <> JUndefined /\
  exists id idText, getProp item "id" = Ok id /\ ToString env id = Ok idText.
Proof.
  unfold toResult, mbind, Res_bind. split.
  - intros [r H].
    destruct item; try discriminate;
      (split; [discriminate |]; split; [discriminate |]);
      destruct (getProp _ "id") as [id |] eqn:Eid; try discriminate;
      destruct (ToString env id) as [idText |] eqn:Etext; try discriminate;
      eauto.
  - intros (Hnull & Hundef & id & idText & Hid & Htext).
    rewrite Hid, Htext.
    destruct item; try contradiction; simpl; eauto.
Qed.

(** What the call does with an answer whose body parses, in full: the
    guard refuses it, or reading a property for the guard fails, or the
    guard lets it through and [map] is called on [data]. *)
Lemma pinterestResults_cases (rsp : Response) (response : JsVal) :
  rspJson rsp = Ok response ->
  (searchFailed (rspStatus rsp) response = Ok true /\
   pinterestResults env rsp = Throw (Error "search failed"))
  \/
  (exists e, searchFailed (rspStatus rsp) response = Throw e /\
             pinterestResults env rsp = Throw e /\ errName e = "TypeError")
  \/
  (searchFailed (rspStatus rsp) response = Ok false /\
   exists props data,
     response = JObj props /\ default JUndefined (props !! "data") = data /\
     pinterestResults env rsp = arrayMap data (toResult env)).
Proof.
  intros Hjson. unfold pinterestResults, mbind, Res_bind. rewrite Hjson.
  destruct (searchFailed (rspStatus rsp) response) as [[|] | e] eqn:Efail.
  - left. auto.
  - right. right. split; [reflexivity |].
    apply searchFailed_false_inv in Efail
      as (_ & props & data & len & -> & _ & Hdata & _).
    exists props, data. simpl. rewrite Hdata. auto.
  - right. left. exists e. repeat split.
    unfold searchFailed, mbind, Res_bind in Efail.
    destruct (negb (rspStatus rsp =? 200)); [discriminate |].
    destruct response; simpl in Efail; try discriminate;
      try (injection Efail as <-; reflexivity).
    destruct (strictNeqStr _ _); [discriminate |].
    destruct (truthy _); [| discriminate].
    destruct (default JUndefined (props !! "data")); simpl in Efail; try discriminate;
      injection Efail as <-; reflexivity.
Qed.

End Pinterest.

(** ** Receipts *)

Lemma popWhile_nil (fuel : nat) (ids : list string) :
  (length ids <= fuel)%nat -> popWhile fuel ids = [].
Proof.
  revert ids. induction fuel as [| fuel IH]; intros ids Hlen.
  - destruct ids; [reflexivity | simpl in Hlen; lia].
  - destruct ids as [| id ids]; [reflexivity |].
    cbn [popWhile]. apply IH.
    rewrite removelast_firstn_len, length_take. simpl in *. lia.
Qed.

(** The loop of lines 88-90 leaves the array empty. *)
Lemma popAll_nil (ids : list string) : popAll ids = [].
Proof. apply popWhile_nil. lia. Qed.

Lemma sendReceipt_run (storageIds : nat) (w : World) :
  sendReceipt storageIds w
  = (Ok tt, mkWorld (clearKeys storageIds (arrays w))
                    (trace w ++ receiptEvents storageIds w)).
Proof.
  unfold sendReceipt, readArray, writeArray, emit, mbind, mret, M_bind, M_ret,
    clearKeys, receiptEvents.
  destruct (default [] (arrays w !! storageIds)) as [| id ids] eqn:E; simpl.
  - rewrite app_nil_r. destruct w; reflexivity.
  - rewrite popAll_nil. reflexivity.
Qed.

Lemma added_app (w w' : World) (events : list Event) :
  trace w' = trace w ++ events -> added w w' = events.
Proof. intros H. unfold added. rewrite H. apply drop_app_length. Qed.

Lemma receiptEvents_held (storageIds : nat) (keys : list string) (w : World) :
  arrays w !! storageIds = Some keys -> keys <> [] ->
  receiptEvents storageIds w = [RuntimeSend (storageReceipt keys)] /\
  clearKeys storageIds (arrays w) = <[storageIds := []]> (arrays w).
Proof.
  intros H Hne. unfold receiptEvents, clearKeys. rewrite H. simpl.
  destruct keys; [contradiction | auto].
Qed.

Lemma receiptEvents_empty (storageIds : nat) (w : World) :
  arrays w !! storageIds = Some [] ->
  receiptEvents storageIds w = [] /\ clearKeys storageIds (arrays w) = arrays w.
Proof. intros H. unfold receiptEvents, clearKeys. rewrite H. auto. Qed.

Lemma clearKeys_lookup (storageIds : nat) (store : gmap nat (list string)) :
  default [] (clearKeys storageIds store !! storageIds) = [].
Proof.
  unfold clearKeys.
  destruct (default [] (store !! storageIds)) eqn:E;
    [exact E | rewrite lookup_insert_eq; reflexivity].
Qed.

Lemma clearKeys_idem (storageIds : nat) (store : gmap nat (list string)) :
  clearKeys storageIds (clearKeys storageIds store) = clearKeys storageIds store.
Proof.
  unfold clearKeys at 1. rewrite clearKeys_lookup. reflexivity.
Qed.

Lemma receiptEvents_cleared (storageIds : nat) (store : gmap nat (list string))
    (events : list Event) :
  receiptEvents storageIds (mkWorld (clearKeys storageIds store) events) = [].
Proof.
  unfold receiptEvents. cbn [arrays]. rewrite clearKeys_lookup. reflexivity.
Qed.

Lemma receiptOnce_emit (storageIds : nat) (keys : list string)
    (before : list Event) (w : World) (e : Event) :
  isReceipt e = false ->
  receiptOnce storageIds keys before w ->
  receiptOnce storageIds keys before (mkWorld (arrays w) (trace w ++ [e])).
Proof.
  intros He (events & Htrace & H). exists (events ++ [e]). simpl.
  rewrite Htrace, <- app_assoc, List.filter_app. simpl. rewrite He, app_nil_r.
  auto.
Qed.

Lemma receiptOnce_sendReceipt (storageIds : nat) (keys : list string)
    (before : list Event) (w : World) :
  keys <> [] ->
  receiptOnce storageIds keys before w ->
  receiptOnce storageIds keys before (snd (sendReceipt storageIds w)) /\
  arrays (snd (sendReceipt storageIds w)) !! storageIds = Some [].
Proof.
  intros Hne (events & Htrace & [[Harr Hnone] | [Harr Hone]]);
    rewrite sendReceipt_run; simpl.
  - destruct (receiptEvents_held _ _ _ Harr Hne) as [-> ->].
    rewrite lookup_insert_eq. split; [| reflexivity].
    exists (events ++ [RuntimeSend (storageReceipt keys)]). simpl.
    rewrite Htrace, <- app_assoc, List.filter_app, Hnone, lookup_insert_eq.
    auto.
  - destruct (receiptEvents_empty _ _ Harr) as [-> ->].
    split; [| assumption].
    exists events. simpl. rewrite app_nil_r. auto.
Qed.

(** ** The orchestrator *)

Section Orchestrator.

Variable env : Env.

Lemma showEngineError_run (p : ErrorParams) (w : World) :
  showEngineError env p w
  = (Ok tt, mkWorld (arrays w) (trace w ++ [RuntimeSend (engineNotification env p)])).
Proof. reflexivity. Qed.

Lemma sessionExpired_notification (engine : string) :
  engineNotification env (sessionExpired engine) = sessionExpiredNotification env engine.
Proof. reflexivity. Qed.

(** The [catch] block: one call of [sendReceipt], one notification, one
    console line, and the error goes on. *)
Lemma onError_run {A : Type} (engine : string) (storageIds : nat)
    (err : JsError) (w : World) :
  @onError A env engine storageIds err w
  = (Throw err,
     mkWorld (clearKeys storageIds (arrays w))
       (trace w ++ receiptEvents storageIds w
          ++ [RuntimeSend (engineNotification env (classify engine err));
              ConsoleLog (errToString err)])).
Proof.
  unfold onError, mbind, M_bind. rewrite sendReceipt_run.
  unfold showEngineError, emit, throw. simpl.
  rewrite <- !app_assoc. reflexivity.
Qed.



(** A literal message that is not empty is the message of the
    notification. *)
Lemma engineNotification_message (message : string) (errorId : option string)
    (engine : string) :
  message <> "" ->
  engineNotification env (mkParams (Some message) errorId engine)
  = notification message (engine +:+ "Error").
Proof.
  intros H. unfold engineNotification, resolveMessage. simpl.
  destruct (String.eqb_spec message ""); [contradiction | reflexivity].
Qed.

Section Run.

Context {A : Type}.
Variable searchFn : SearchArgs -> M A.
Variables engine taskId : string.

Lemma initSearch_not_loaded (w : World) (e : JsError) :
  waitForDocumentLoad env = Throw e ->
  initSearch env searchFn engine taskId w = (Throw e, w).
Proof.
  intros H. unfold initSearch. run_M. rewrite H. reflexivity.
Qed.

Lemma initSearch_request_fails (w : World) (e : JsError) :
  waitForDocumentLoad env = Ok tt ->
  taskReply env taskId = Throw e ->
  initSearch env searchFn engine taskId w
  = (Throw e, mkWorld (arrays w) (trace w ++ [RuntimeSend (storageRequest taskId)])).
Proof.
  intros Hload H. unfold initSearch. run_M.
  rewrite Hload, H. reflexivity.
Qed.

Lemma initSearch_no_task (w : World) :
  waitForDocumentLoad env = Ok tt ->
  taskReply env taskId = Ok None ->
  initSearch env searchFn engine taskId w
  = (Ok tt,
     mkWorld (arrays w)
       (trace w ++ [RuntimeSend (storageRequest taskId);
                    RuntimeSend (sessionExpiredNotification env engine)])).
Proof.
  intros Hload H. unfold initSearch. run_M.
  rewrite Hload, H. rewrite showEngineError_run. simpl.
  rewrite <- app_assoc. reflexivity.
Qed.

Lemma initSearch_task (task : Task) (w : World) :
  waitForDocumentLoad env = Ok tt ->
  taskReply env taskId = Ok (Some task) ->
  initSearch env searchFn engine taskId w
  = tryCatch (trySearch env searchFn engine task (fresh (dom (arrays w))))
             (onError env engine (fresh (dom (arrays w))))
             (taskFetched taskId task w).
Proof.
  intros Hload H. unfold initSearch, newArray. run_M.
  rewrite Hload, H. reflexivity.
Qed.

Lemma taskFetched_keys (task : Task) (w : World) :
  arrays (taskFetched taskId task w) !! fresh (dom (arrays w))
  = Some [taskId; imageId task].
Proof. apply lookup_insert_eq. Qed.

Lemma trySearch_image_fails (task : Task) (storageIds : nat) (w : World) (e : JsError) :
  imageReply env (imageId task) = Throw e ->
  trySearch env searchFn engine task storageIds w
  = (Throw e,
     mkWorld (arrays w) (trace w ++ [LargeSend (storageRequest (imageId task))])).
Proof.
  intros H. unfold trySearch. run_M. rewrite H. reflexivity.
Qed.

Lemma trySearch_no_image (task : Task) (storageIds : nat) (w : World) :
  imageReply env (imageId task) = Ok None ->
  trySearch env searchFn engine task storageIds w
  = (Ok tt,
     mkWorld (clearKeys storageIds (arrays w))
       (trace w ++ [LargeSend (storageRequest (imageId task))]
          ++ receiptEvents storageIds w
          ++ [RuntimeSend (sessionExpiredNotification env engine)])).
Proof.
  intros H. unfold trySearch. run_M. rewrite H.
  rewrite sendReceipt_run, showEngineError_run. simpl.
  rewrite <- !app_assoc. reflexivity.
Qed.

Lemma trySearch_adaptation_fails (task : Task) (storageIds : nat) (w : World)
    (stored : Image) (e : JsError) :
  imageReply env (imageId task) = Ok (Some stored) ->
  adaptForSearch env engine task stored = Throw e ->
  trySearch env searchFn engine task storageIds w
  = (Throw e,
     mkWorld (arrays w) (trace w ++ [LargeSend (storageRequest (imageId task))])).
Proof.
  intros H Hadapt. unfold trySearch. run_M.
  rewrite H, Hadapt. reflexivity.
Qed.

Lemma trySearch_search (task : Task) (storageIds : nat) (w : World)
    (stored upload : Image) :
  imageReply env (imageId task) = Ok (Some stored) ->
  adaptForSearch env engine task stored = Ok upload ->
  trySearch env searchFn engine task storageIds w
  = let args := mkArgs (session task) (search task) upload storageIds in
    match searchFn args
            (mkWorld (arrays w)
               (trace w ++ [LargeSend (storageRequest (imageId task)); Invoke args]))
    with
    | (Ok _, w') => (Ok tt, w')
    | (Throw e, w') => (Throw e, w')
    end.
Proof.
  intros H Hadapt. unfold trySearch, mbind, M_bind, mret, M_ret, liftRes, emit.
  rewrite H, Hadapt. simpl. rewrite <- app_assoc. simpl.
  destruct (searchFn _ _) as [[r | e] w']; reflexivity.
Qed.

End Run.

Lemma runSteps_receiptOnce (args : SearchArgs) (steps : list EngineStep)
    (keys : list string) (before : list Event) (w : World) :
  keys <> [] ->
  receiptOnce (argStorageIds args) keys before w ->
  exists w',
    runSteps env args steps w = (Ok tt, w') /\
    receiptOnce (argStorageIds args) keys before w'.
Proof.
  intros Hne. revert w. induction steps as [| step rest IH]; intros w Hinv.
  - exists w. split; [reflexivity | assumption].
  - cbn [runSteps]. unfold mbind, M_bind.
    destruct step as [| p | line]; cbn [runStep].
    + destruct (receiptOnce_sendReceipt _ _ _ _ Hne Hinv) as [Hinv' _].
      rewrite sendReceipt_run in *. cbn [snd] in Hinv'. apply IH. exact Hinv'.
    + rewrite showEngineError_run. apply IH. apply receiptOnce_emit; auto.
    + unfold emit. apply IH. apply receiptOnce_emit; auto.
Qed.

Lemma scriptedSearch_preserves (steps : list EngineStep) (outcome : Res unit) :
  preservesReceipt (scriptedSearch env steps outcome).
Proof.
  intros args keys before w Hne Hinv.
  destruct (runSteps_receiptOnce args steps keys before w Hne Hinv) as (w' & Hrun & Hinv').
  unfold scriptedSearch, mbind, M_bind, liftRes. rewrite Hrun. exact Hinv'.
Qed.

Lemma searchPinterest_preserves : preservesReceipt (searchPinterest env).
Proof.
  intros args keys before w Hne Hinv.
  unfold searchPinterest. run_M.
  destruct (pinterestForm (argImage args)) as [body |]; [| exact Hinv].
  destruct (fetch env (pinterestRequest body)) as [rsp |];
    apply receiptOnce_emit; auto.
Qed.

(** After the [catch] block the receipt has gone out exactly once. *)
Lemma receiptOnce_onError {A : Type} (engine : string) (storageIds : nat)
    (keys : list string) (before : list Event) (err : JsError) (w : World) :
  keys <> [] ->
  receiptOnce storageIds keys before w ->
  receiptOnce storageIds keys before (snd (@onError A env engine storageIds err w)).
Proof.
  intros Hne Hinv.
  destruct (receiptOnce_sendReceipt _ _ _ _ Hne Hinv) as [Hinv' _].
  rewrite sendReceipt_run in Hinv'. cbn [snd] in Hinv'.
  rewrite onError_run. cbn [snd].
  apply (receiptOnce_emit _ _ _ _ (RuntimeSend (engineNotification env (classify engine err))))
    in Hinv'; [| reflexivity].
  apply (receiptOnce_emit _ _ _ _ (ConsoleLog (errToString err))) in Hinv'; [| reflexivity].
  cbn [arrays trace] in Hinv'. rewrite <- !app_assoc in Hinv'. exact Hinv'.
Qed.

(** Whenever the task is found, the receipt of its two keys goes out at
    most once in the run, if the search function keeps to that. *)
Lemma initSearch_receiptOnce {A : Type} (searchFn : SearchArgs -> M A)
    (engine taskId : string) (task : Task) (w : World) :
  preservesReceipt searchFn ->
  waitForDocumentLoad env = Ok tt ->
  taskReply env taskId = Ok (Some task) ->
  receiptOnce (fresh (dom (arrays w))) [taskId; imageId task] (trace w)
    (snd (initSearch env searchFn engine taskId w)).
Proof.
  intros Hfn Hload Htask.
  rewrite (initSearch_task searchFn engine taskId task w Hload Htask).
  set (storageIds := fresh (dom (arrays w))).
  assert (Hne : [taskId; imageId task] <> []) by discriminate.
  assert (H1 : receiptOnce storageIds [taskId; imageId task] (trace w)
                 (taskFetched taskId task w)).
  { exists [RuntimeSend (storageRequest taskId)]. split; [reflexivity |].
    left. split; [apply taskFetched_keys | reflexivity]. }
  apply (receiptOnce_emit _ _ _ _ (LargeSend (storageRequest (imageId task)))) in H1;
    [| reflexivity].
  unfold tryCatch.
  destruct (imageReply env (imageId task)) as [[stored |] | e] eqn:Himage.
  - destruct (adaptForSearch env engine task stored) as [upload | e] eqn:Hadapt.
    + rewrite (trySearch_search searchFn engine task _ _ stored upload Himage Hadapt).
      cbv zeta.
      set (args := mkArgs (session task) (search task) upload storageIds).
      apply (receiptOnce_emit _ _ _ _ (Invoke args)) in H1; [| reflexivity].
      cbn [arrays trace] in H1. rewrite <- app_assoc in H1. cbn [app] in H1.
      apply (Hfn args _ _ _ Hne) in H1.
      destruct (searchFn args _) as [[r | e] w'] eqn:Hsearch; cbn [snd] in H1.
      * exact H1.
      * apply receiptOnce_onError; assumption.
    + rewrite (trySearch_adaptation_fails searchFn engine task _ _ stored e Himage Hadapt).
      apply receiptOnce_onError; assumption.
  - rewrite (trySearch_no_image searchFn engine task _ _ Himage). cbn [snd].
    destruct (receiptOnce_sendReceipt _ _ _ _ Hne H1) as [H2 _].
    rewrite sendReceipt_run in H2. cbn [snd arrays trace] in H2.
    apply (receiptOnce_emit _ _ _ _ (RuntimeSend (sessionExpiredNotification env engine)))
      in H2; [| reflexivity].
    cbn [arrays trace] in H2. rewrite <- !app_assoc in H2. exact H2.
  - rewrite (trySearch_image_fails searchFn engine task _ _ e Himage).
    apply receiptOnce_onError; assumption.
Qed.

Lemma receiptOnce_added (storageIds : nat) (keys : list string) (w w' : World) :
  receiptOnce storageIds keys (trace w) w' ->
  List.filter isReceipt (added w w') = [] \/
  List.filter isReceipt (added w w') = [RuntimeSend (storageReceipt keys)].
Proof.
  intros (events & Htrace & [[_ H] | [_ H]]); rewrite (added_app w w' events Htrace); auto.
Qed.

(** The three ways in which the [try] block throws: the image request
    is rejected, the adaptation fails, or the search function throws. *)
Lemma trySearch_Throw_inv {A : Type} (searchFn : SearchArgs -> M A)
    (engine : string) (task : Task) (storageIds : nat) (w w2 : World) (err : JsError) :
  trySearch env searchFn engine task storageIds w = (Throw err, w2) ->
  imageReply env (imageId task) = Throw err \/
  (exists stored,
      imageReply env (imageId task) = Ok (Some stored) /\
      adaptForSearch env engine task stored = Throw err) \/
  (exists stored upload,
      imageReply env (imageId task) = Ok (Some stored) /\
      adaptForSearch env engine task stored = Ok upload /\
      let args := mkArgs (session task) (search task) upload storageIds in
      searchFn args
        (mkWorld (arrays w)
           (trace w ++ [LargeSend (storageRequest (imageId task)); Invoke args]))
      = (Throw err, w2)).
Proof.
  intros Htry.
  destruct (imageReply env (imageId task)) as [[stored |] | e] eqn:Himage.
  - destruct (adaptForSearch env engine task stored) as [upload | e] eqn:Hadapt.
    + right. right. exists stored, upload. split; [reflexivity |]. split; [exact Hadapt |].
      rewrite (trySearch_search searchFn engine task _ _ stored upload Himage Hadapt)
        in Htry.
      cbv zeta in *.
      destruct (searchFn _ _) as [[r | e] w'] eqn:Hsearch; [discriminate |].
      injection Htry as -> ->. reflexivity.
    + right. left. exists stored. split; [reflexivity |].
      rewrite Hadapt. f_equal.
      rewrite (trySearch_adaptation_fails searchFn engine task _ _ stored e Himage Hadapt)
        in Htry.
      injection Htry as -> _. reflexivity.
  - rewrite (trySearch_no_image searchFn engine task _ _ Himage) in Htry. discriminate.
  - left. rewrite (trySearch_image_fails searchFn engine task _ _ e Himage) in Htry.
    injection Htry as -> _. reflexivity.
Qed.

Lemma receiptEvents_no_notification (storageIds : nat) (w : World) :
  List.filter isNotification (receiptEvents storageIds w) = [] /\
  List.filter isInvoke (receiptEvents storageIds w) = [] /\
  (length (receiptEvents storageIds w) <= 1)%nat.
Proof.
  unfold receiptEvents.
  destruct (default [] (arrays w !! storageIds)); simpl; auto.
Qed.



(** C9.  The orchestrator sends no receipt of its own when nothing goes
    wrong.  With no task in storage the run sends none.  With the task
    and the image present and a search function that resolves, the run
    ends in the state the search function leaves: the orchestrator adds
    nothing after it, what it did before it (the two storage requests)
    contains no receipt and left the keys in the array, so any receipt
    of the run was sent by the search function. *)
Theorem initSearch_success_sends_no_receipt {A : Type} (searchFn : SearchArgs -> M A)
    (engine taskId : string) (w : World) :
  waitForDocumentLoad env = Ok tt ->
  (taskReply env taskId = Ok None ->
   List.filter isReceipt (added w (snd (initSearch env searchFn engine taskId w))) = [])
  /\
  (forall (task : Task) (stored upload : Image) (result : A) (w2 : World),
      taskReply env taskId = Ok (Some task) ->
      imageReply env (imageId task) = Ok (Some stored) ->
      adaptForSearch env engine task stored = Ok upload ->
      let args := mkArgs (session task) (search task) upload (fresh (dom (arrays w))) in
      searchFn args (searchEntered taskId task args w) = (Ok result, w2) ->
      initSearch env searchFn engine taskId w = (Ok tt, w2) /\
      added w (searchEntered taskId task args w)
      = [RuntimeSend (storageRequest taskId);
         LargeSend (storageRequest (imageId task));
         Invoke args] /\
      List.filter isReceipt (added w (searchEntered taskId task args w)) = [] /\
      arrays (searchEntered taskId task args w) !! argStorageIds args
      = Some [taskId; imageId task] /\
      (forall events,
          trace w2 = trace (searchEntered taskId task args w) ++ events ->
          List.filter isReceipt (added w w2) = List.filter isReceipt events)).
Proof.
  intros Hload. split.
  - intros Htask. rewrite (initSearch_no_task searchFn engine taskId w Hload Htask).
    simpl. erewrite added_app by (cbn [trace]; reflexivity). reflexivity.
  - intros task stored upload result w2 Htask Himage Hadapt args Hsearch.
    split.
    { rewrite (initSearch_task searchFn engine taskId task w Hload Htask).
      unfold tryCatch.
      rewrite (trySearch_search searchFn engine task _ _ stored upload Himage Hadapt).
      cbv zeta. fold args.
      replace (mkWorld _ _) with (searchEntered taskId task args w).
      - rewrite Hsearch. reflexivity.
      - unfold searchEntered, taskFetched. cbn [trace arrays].
        rewrite <- app_assoc. reflexivity. }
    erewrite (added_app w (searchEntered taskId task args w))
      by (unfold searchEntered; cbn [trace]; reflexivity).
    split; [reflexivity |]. split; [reflexivity |].
    split; [apply taskFetched_keys |].
    intros events Hevents.
    rewrite (added_app w w2
               ([RuntimeSend (storageRequest taskId);
                 LargeSend (storageRequest (imageId task));
                 Invoke args] ++ events)).
    + rewrite List.filter_app. reflexivity.
    + rewrite Hevents. unfold searchEntered. cbn [trace].
      rewrite <- app_assoc. reflexivity.
Qed.

(** In a run with a search function that keeps to [receiptOnce], the
    receipts sent are none, or the one of the task's two keys. *)
Lemma initSearch_receipts {A : Type} (searchFn : SearchArgs -> M A)
    (engine taskId : string) (w : World) :
  preservesReceipt searchFn ->
  let w' := snd (initSearch env searchFn engine taskId w) in
  List.filter isReceipt (added w w') = [] \/
  exists task,
    taskReply env taskId = Ok (Some task) /\
    List.filter isReceipt (added w w')
    = [RuntimeSend (storageReceipt [taskId; imageId task])].
Proof.
  intros Hfn w'. subst w'.
  destruct (waitForDocumentLoad env) as [[] | e] eqn:Hload.
  - destruct (taskReply env taskId) as [[task |] | e] eqn:Htask.
    + pose proof (initSearch_receiptOnce searchFn engine taskId task w Hfn Hload Htask)
        as Hinv.
      apply receiptOnce_added in Hinv as [H | H]; [left; exact H |].
      right. exists task. split; [reflexivity | exact H].
    + left. rewrite (initSearch_no_task _ engine taskId w Hload Htask).
      cbn [snd]. erewrite added_app by (cbn [trace]; reflexivity). reflexivity.
    + left. rewrite (initSearch_request_fails _ engine taskId w e Hload Htask).
      cbn [snd]. erewrite added_app by (cbn [trace]; reflexivity). reflexivity.
  - left. rewrite (initSearch_not_loaded _ engine taskId w e Hload).
    cbn [snd]. rewrite (added_app w w []); [reflexivity | symmetry; apply app_nil_r].
Qed.

(** C4.  [sendReceipt] called on an array that holds keys empties the
    array and sends one receipt carrying those keys; called again on
    the same array it sends nothing and changes nothing.  So in a run of
    the orchestrator, with a search function that acknowledges through
    [sendReceipt] as often as it likes and then resolves or throws (or
    with [searchPinterest], which never acknowledges), at most one
    receipt goes out, and it carries the task's two keys, [taskId] and
    [imageId], in that order. *)
Theorem sendReceipt_at_most_once :
  (forall (storageIds : nat) (keys : list string) (w : World),
      arrays w !! storageIds = Some keys ->
      keys <> [] ->
      sendReceipt storageIds w
      = (Ok tt, mkWorld (<[storageIds := []]> (arrays w))
                        (trace w ++ [RuntimeSend (storageReceipt keys)])))
  /\
  (forall (storageIds : nat) (w : World),
      sendReceipt storageIds (snd (sendReceipt storageIds w))
      = (Ok tt, snd (sendReceipt storageIds w)))
  /\
  (forall (steps : list EngineStep) (outcome : Res unit) (engine taskId : string)
          (w : World),
      let w' := snd (initSearch env (scriptedSearch env steps outcome) engine taskId w) in
      List.filter isReceipt (added w w') = [] \/
      exists task,
        taskReply env taskId = Ok (Some task) /\
        List.filter isReceipt (added w w')
        = [RuntimeSend (storageReceipt [taskId; imageId task])])
  /\
  (forall (engine taskId : string) (w : World),
      let w' := snd (initSearch env (searchPinterest env) engine taskId w) in
      List.filter isReceipt (added w w') = [] \/
      exists task,
        taskReply env taskId = Ok (Some task) /\
        List.filter isReceipt (added w w')
        = [RuntimeSend (storageReceipt [taskId; imageId task])]).
Proof.
  split; [| split; [| split]].
  - intros storageIds keys w Hkeys Hne. rewrite sendReceipt_run.
    destruct (receiptEvents_held _ _ _ Hkeys Hne) as [-> ->]. reflexivity.
  - intros storageIds w. rewrite !sendReceipt_run. cbn [snd arrays trace].
    rewrite clearKeys_idem, receiptEvents_cleared, app_nil_r. reflexivity.
  - intros steps outcome engine taskId w.
    apply initSearch_receipts. apply scriptedSearch_preserves.
  - intros engine taskId w.
    apply initSearch_receipts. apply searchPinterest_preserves.
Qed.

End Orchestrator.

(** ** The properties on the scenario of the specification *)



Lemma searchPinterest_maps_in_order_witness :
  let env := sampleEnv (Ok None) (Ok None) None None (Ok (mkResponse 200 (Ok sampleBody))) in
  let args := mkArgs JNull (mkSearch "image" JUndefined) sampleConverted 0%nat in
  fst (searchPinterest env args emptyWorld)
  = Ok [mkResult "https://pinterest.com/pin/11/" (JStr "https://i.pinimg.com/a.jpg")
          (JStr "first");
        mkResult "https://pinterest.com/pin/22/" (JStr "https://i.pinimg.com/b.jpg")
          (JStr "second")] /\
  exists rsp props items,
    answered env args rsp /\
    rspJson rsp = Ok (JObj props) /\
    props !! "data" = Some (JArr items) /\
    length (A := SearchResult)
      [mkResult "https://pinterest.com/pin/11/" (JStr "https://i.pinimg.com/a.jpg")
         (JStr "first");
       mkResult "https://pinterest.com/pin/22/" (JStr "https://i.pinimg.com/b.jpg")
         (JStr "second")]
    = length items.
Proof.
  intros env args. split; [vm_compute; reflexivity |].
  destruct (searchPinterest_maps_in_order env args emptyWorld
              (snd (searchPinterest env args emptyWorld)) _
              ltac:(vm_compute; reflexivity))
    as (rsp & props & items & Hans & Hjson & Hdata & Hlen & _).
  exists rsp, props, items. auto.
Defined.

(** A 500 whose body is an HTML page: the parse error comes out. *)
Lemma searchPinterest_parse_error_first_witness :
  let parseError := mkError "SyntaxError" "Unexpected token '<'" in
  let rsp := mkResponse 500 (Throw parseError) in
  let env := sampleEnv (Ok None) (Ok None) None None (Ok rsp) in
  let args := mkArgs JNull (mkSearch "image" JUndefined) sampleConverted 0%nat in
  answered env args rsp /\
  fst (searchPinterest env args emptyWorld) = Throw parseError.
Proof.
  intros parseError rsp env args.
  assert (Hanswered : answered env args rsp) by (eexists; split; reflexivity).
  split; [exact Hanswered |].
  destruct (searchPinterest_parse_error_first env args emptyWorld rsp Hanswered)
    as [Hthrown _].
  apply Hthrown. reflexivity.
Defined.



(** The run of the scenario in which everything succeeds: no receipt. *)
Lemma initSearch_success_sends_no_receipt_witness :
  let env := sampleEnv (Ok (Some sampleTask)) (Ok (Some sampleImage)) (Some 1048576)
               (Some sampleConverted) (Ok (mkResponse 200 (Ok sampleBody))) in
  exists w2,
    initSearch env (searchPinterest env) "pinterest" "t1" emptyWorld = (Ok tt, w2) /\
    List.filter isReceipt (added emptyWorld w2) = [].
Proof.
  intros env.
  destruct (initSearch_success_sends_no_receipt env (searchPinterest env) "pinterest" "t1"
              emptyWorld eq_refl) as [_ Hsuccess].
  eexists.
  destruct (Hsuccess sampleTask sampleImage sampleConverted _ _ eq_refl eq_refl eq_refl
              ltac:(vm_compute; reflexivity)) as (Hrun & _ & _ & _ & Hreceipts).
  split; [exact Hrun |].
  rewrite (Hreceipts [Fetch (pinterestRequest
                               [("image", FormFile (mkBlob "image/jpeg" []) "image.jpg");
                                ("x", FormText "0"); ("y", FormText "0");
                                ("w", FormText "1"); ("h", FormText "1");
                                ("base_scheme", FormText "https")])]);
    [reflexivity | vm_compute; reflexivity].
Defined.

(** A search function that acknowledges twice and then throws: one
    receipt in the whole run. *)
Lemma sendReceipt_at_most_once_witness :
  let env := sampleEnv (Ok (Some sampleTask)) (Ok (Some sampleImage)) (Some 1048576)
               (Some sampleConverted) (Throw (Error "offline")) in
  let searchFn := scriptedSearch env [DoSendReceipt; DoSendReceipt] (Throw (Error "boom")) in
  let w' := snd (initSearch env searchFn "pinterest" "t1" emptyWorld) in
  List.filter isReceipt (added emptyWorld w') = [RuntimeSend (storageReceipt ["t1"; "i1"])] /\
  (List.filter isReceipt (added emptyWorld w') = [] \/
   exists task,
     taskReply env "t1" = Ok (Some task) /\
     List.filter isReceipt (added emptyWorld w')
     = [RuntimeSend (storageReceipt ["t1"; imageId task])]).
Proof.
  intros env searchFn w'.
  split; [vm_compute; reflexivity |].
  destruct (sendReceipt_at_most_once env) as (_ & _ & Hrun & _).
  exact (Hrun [DoSendReceipt; DoSendReceipt] (Throw (Error "boom")) "pinterest" "t1"
           emptyWorld).
Defined.

(** * Further properties of the module *)

(** ** The small helpers *)

Lemma includes_elem_of (items : list string) (x : string) :
  includes items x = true <-> x ∈ items.
Proof.
  induction items as [| item rest IH]; simpl.
  - split; [discriminate | intros H; inversion H].
  - destruct (String.eqb_spec item x) as [-> | Hne].
    + split; [intros _; left | reflexivity].
    + rewrite IH. split.
      * intros H. right. exact H.
      * intros H. inversion H; subst; [contradiction | assumption].
Qed.

(** X1.  [getValidHostname] answers with the page's own host name, and
    only when the list holds it; otherwise it throws a plain [Error]
    that names the engine and the host, which the [catch] block of
    [initSearch] would report as a generic engine error. *)
Theorem getValidHostname_listed (hostname : string) (validHostnames : list string)
    (engine : string) :
  (forall r,
      getValidHostname hostname validHostnames engine = Ok r <->
      r = hostname /\ hostname ∈ validHostnames)
  /\
  (hostname ∉ validHostnames ->
   getValidHostname hostname validHostnames engine
   = Throw (Error ("Invalid " +:+ engine +:+ " hostname: " +:+ hostname)))
  /\
  (forall e reported,
      getValidHostname hostname validHostnames engine = Throw e ->
      classify reported e = mkParams None (Some "error_engine") reported).
Proof.
  unfold getValidHostname.
  destruct (includes validHostnames hostname) eqn:E; simpl.
  - apply includes_elem_of in E. split; [| split].
    + intros r. split; [intros [= <-]; auto | intros [-> _]; reflexivity].
    + intros Hnot. contradiction.
    + intros e reported H. discriminate.
  - assert (Hnot : hostname ∉ validHostnames).
    { intros Hin. apply includes_elem_of in Hin. congruence. }
    split; [| split].
    + intros r. split; [discriminate | intros [_ Hin]; contradiction].
    + reflexivity.
    + intros e reported [= <-]. reflexivity.
Qed.

Section Helpers.

Variable env : Env.

(** X2.  [showEngineError] treats an empty message as no message: the
    text then comes from the catalog, for [errorId] and the engine's
    display name.  A message that is not empty is sent as it is,
    whatever [errorId] and the catalog are.  Either way one
    notification of type [<engine>Error] is sent and nothing else
    changes. *)
Theorem showEngineError_message_or_catalog (engine : string)
    (errorId : option string) (message : string) (w : World) :
  showEngineError env (mkParams (Some "") errorId engine) w
  = showEngineError env (mkParams None errorId engine) w
  /\
  showEngineError env (mkParams None errorId engine) w
  = (Ok tt,
     mkWorld (arrays w)
       (trace w
          ++ [RuntimeSend
                (notification
                   (getMessage env errorId
                      (Some (getMessage env (Some ("engineName_" +:+ engine)) None)))
                   (engine +:+ "Error"))]))
  /\
  (message <> "" ->
   showEngineError env (mkParams (Some message) errorId engine) w
   = (Ok tt,
      mkWorld (arrays w)
        (trace w ++ [RuntimeSend (notification message (engine +:+ "Error"))]))).
Proof.
  split; [reflexivity |]. split; [reflexivity |].
  intros Hne. rewrite showEngineError_run, engineNotification_message by exact Hne.
  reflexivity.
Qed.

(** X3.  [uploadCallback] is transparent when the callback returns, and
    when the callback throws it rethrows the same error after one
    notification, always the generic one of the engine (the message of
    an [EngineError] is not shown here), and one console line; it sends
    no receipt and leaves the arrays of keys as the callback left
    them. *)
Theorem uploadCallback_outcome {X B : Type} (xhr : X) (callback : X -> M B)
    (engine : string) (w : World) :
  match callback xhr w with
  | (Ok _, w') => uploadCallback env xhr callback engine w = (Ok tt, w')
  | (Throw err, w') =>
      uploadCallback env xhr callback engine w
      = (Throw err,
         mkWorld (arrays w')
           (trace w' ++ [RuntimeSend (genericNotification env engine);
                         ConsoleLog (errToString err)]))
  end.
Proof.
  unfold uploadCallback, tryCatch, mbind, mret, M_bind, M_ret.
  destruct (callback xhr w) as [[r | err] w']; [reflexivity |].
  rewrite showEngineError_run. unfold emit, throw. cbn [arrays trace].
  rewrite <- app_assoc. reflexivity.
Qed.

(** X4.  [sendReceipt] acts on the array it is given and on no other:
    the other arrays keep their keys, and two arrays holding the same
    keys are each acknowledged, with a receipt of their own. *)
Theorem sendReceipt_per_array (a b : nat) (w : World) :
  a <> b ->
  arrays (snd (sendReceipt a w)) !! b = arrays w !! b /\
  (forall keys,
      keys <> [] ->
      arrays w !! a = Some keys ->
      arrays w !! b = Some keys ->
      (sendReceipt a;; sendReceipt b) w
      = (Ok tt,
         mkWorld (<[b := []]> (<[a := []]> (arrays w)))
           (trace w ++ [RuntimeSend (storageReceipt keys);
                        RuntimeSend (storageReceipt keys)]))).
Proof.
  intros Hne.
  assert (Hframe : forall w0, arrays (snd (sendReceipt a w0)) !! b = arrays w0 !! b).
  { intros w0. rewrite sendReceipt_run. cbn [snd arrays]. unfold clearKeys.
    destruct (default [] (arrays w0 !! a)); [reflexivity |].
    apply lookup_insert_ne. exact Hne. }
  split; [apply Hframe |].
  intros keys Hkeys Ha Hb.
  pose proof (Hframe w) as Hb'. rewrite Hb in Hb'.
  unfold mbind, M_bind. rewrite (sendReceipt_run a w) in *. cbn [snd] in Hb'.
  rewrite sendReceipt_run.
  destruct (receiptEvents_held _ _ _ Hb' Hkeys) as [-> ->].
  destruct (receiptEvents_held _ _ _ Ha Hkeys) as [-> ->].
  cbn [arrays trace]. rewrite <- app_assoc. reflexivity.
Qed.

(** ** More on [prepareImageForUpload] *)


Lemma prepareImageForUpload_within_limit_size (image : Image) (engine : string)
    (target : option string) (newType : string) (setBlob : bool) (limit : Z) :
  getMaxImageUploadSize env engine target = Some limit ->
  limit <> 0 ->
  imageSize image <= limit ->
  exists result,
    prepareImageForUpload env image engine target newType setBlob = Ok result /\
    imageSize result = imageSize image.
Proof.
  intros Hlimit Hnz Hle. unfold prepareImageForUpload.
  rewrite (configuredLimit_Some _ _ Hlimit Hnz).
  destruct (Z.gtb_spec (imageSize image) limit) as [Hgt | _]; [lia |].
  destruct setBlob; eexists; split; reflexivity.
Qed.

Lemma prepared_size_within (image result : Image) (engine : string)
    (target : option string) (newType : string) (setBlob : bool) (limit : Z) :
  conversionWithinLimit env ->
  getMaxImageUploadSize env engine target = Some limit ->
  limit <> 0 ->
  prepareImageForUpload env image engine target newType setBlob = Ok result ->
  imageSize result <= limit.
Proof.
  intros Hcontract Hlimit Hnz. unfold prepareImageForUpload.
  rewrite (configuredLimit_Some _ _ Hlimit Hnz).
  destruct (Z.gtb_spec (imageSize image) limit) as [Hgt | Hle].
  - destruct (convertProcessedImage env image (mkConvert newType limit setBlob))
      as [converted |] eqn:Econv; [| discriminate].
    intros [= <-]. exact (Hcontract _ _ _ Econv).
  - destruct setBlob; intros [= <-]; exact Hle.
Qed.

(** X6.  With a conversion engine that keeps to the size it is asked
    for, whatever [prepareImageForUpload] returns under a configured
    limit fits that limit, whether the image was converted or not. *)
Theorem prepareImageForUpload_fits (image result : Image) (engine : string)
    (target : option string) (newType : string) (setBlob : bool) (limit : Z) :
  conversionWithinLimit env ->
  getMaxImageUploadSize env engine target = Some limit ->
  limit <> 0 ->
  prepareImageForUpload env image engine target newType setBlob = Ok result ->
  imageSize result <= limit /\
  (imageSize image <= limit -> imageSize result = imageSize image).
Proof.
  intros Hcontract Hlimit Hnz Hrun.
  split; [exact (prepared_size_within image result engine target newType setBlob limit
                   Hcontract Hlimit Hnz Hrun) |].
  intros Hle.
  destruct (prepareImageForUpload_within_limit_size image engine target newType setBlob
              limit Hlimit Hnz Hle) as (r & Hr & Hsize).
  congruence.
Qed.

(** X7.  What [prepareImageForUpload] returns is stable: prepared again
    for the same engine, it is returned without a new conversion and
    without an error, with the same data URL, file name, type and size,
    and as it is when [setBlob] is off. *)
Theorem prepareImageForUpload_again (image result : Image) (engine : string)
    (target : option string) (newType : string) (setBlob : bool) :
  conversionWithinLimit env ->
  prepareImageForUpload env image engine target newType setBlob = Ok result ->
  exists again,
    prepareImageForUpload env result engine target newType setBlob = Ok again /\
    imageDataUrl again = imageDataUrl result /\
    imageFilename again = imageFilename result /\
    imageType again = imageType result /\
    imageSize again = imageSize result /\
    (setBlob = false -> again = result).
Proof.
  intros Hcontract Hfirst.
  destruct (configuredLimit (getMaxImageUploadSize env engine target)) as [limit |] eqn:Elimit.
  - assert (Hfits : imageSize result <= limit).
    { unfold configuredLimit in Elimit.
      destruct (getMaxImageUploadSize env engine target) as [n |] eqn:En; [| discriminate].
      destruct (Z.eqb_spec n 0) as [_ | Hnz]; [discriminate |].
      injection Elimit as ->.
      exact (prepared_size_within image result engine target newType setBlob limit
               Hcontract En Hnz Hfirst). }
    unfold prepareImageForUpload. rewrite Elimit.
    destruct (Z.gtb_spec (imageSize result) limit) as [Hgt | _]; [lia |].
    destruct setBlob; eexists; (split; [reflexivity |]); simpl; auto.
    repeat split; auto. discriminate.
  - unfold prepareImageForUpload in *. rewrite Elimit in *.
    exists result. auto 10.
Qed.

End Helpers.

(** ** More on [searchPinterest] *)

Section PinterestMore.

Variable env : Env.

(** X8.  [searchPinterest] does nothing but the network call.  It never
    touches the arrays of keys and sends nothing to the message bus.
    Without a blob in the image it throws a [TypeError] and asks the
    network nothing; with one it issues exactly one request, a PUT of
    the six-field form to the visual-search address, and an error of
    the network comes out as it is.  Session, search options and the
    array of keys play no part. *)
Theorem searchPinterest_effects (args : SearchArgs) (w : World) :
  arrays (snd (searchPinterest env args w)) = arrays w
  /\
  (imageBlob (argImage args) = None ->
   snd (searchPinterest env args w) = w /\
   exists message, fst (searchPinterest env args w) = Throw (TypeError message))
  /\
  (forall blob,
      imageBlob (argImage args) = Some blob ->
      let request :=
        mkRequest "https://api.pinterest.com/v3/visual_search/extension/image/"
          "" "cors" "PUT"
          [("image", FormFile blob (imageFilename (argImage args)));
           ("x", FormText "0"); ("y", FormText "0");
           ("w", FormText "1"); ("h", FormText "1");
           ("base_scheme", FormText "https")] in
      trace (snd (searchPinterest env args w)) = trace w ++ [Fetch request] /\
      (forall e, fetch env request = Throw e ->
                 fst (searchPinterest env args w) = Throw e))
  /\
  (forall args' : SearchArgs,
      argImage args' = argImage args ->
      searchPinterest env args' w = searchPinterest env args w).
Proof.
  unfold searchPinterest, pinterestForm. run_M.
  split; [| split; [| split]].
  - destruct (imageBlob (argImage args)); [| reflexivity].
    destruct (fetch env _); reflexivity.
  - intros ->. split; [reflexivity | eexists; reflexivity].
  - intros blob Hblob. cbv zeta. rewrite Hblob. unfold pinterestRequest.
    split.
    + destruct (fetch env _); reflexivity.
    + intros e He. rewrite He. reflexivity.
  - intros args' Himage. rewrite Himage. reflexivity.
Qed.

(** X9.  A call of [searchPinterest] that returns, returns at least one
    result: an empty answer of the provider is an error, never an empty
    list. *)
Theorem searchPinterest_results_nonempty (args : SearchArgs) (w w' : World)
    (results : list SearchResult) :
  searchPinterest env args w = (Ok results, w') ->
  results <> [].
Proof.
  intros Hrun.
  apply searchPinterest_Ok_inv in Hrun as (rsp & _ & Hres).
  apply pinterestResults_Ok_inv in Hres
    as (_ & response & items & _ & (props & _ & _ & _ & Hne) & Hmap).
  apply mapM_Ok_Forall2 in Hmap. apply Forall2_length in Hmap.
  intros ->. destruct items; [contradiction | discriminate].
Qed.

(** X10.  An item of [data] that is an object is mapped whenever its
    [id] converts to a string: a missing [id] gives the text that
    [undefined] converts to, a missing [image_large_url] or
    [description] gives [undefined], none of them an error.  An item
    that is [null] makes the mapping throw a [TypeError]. *)
Theorem toResult_object (props : gmap string JsVal) :
  match ToString env (default JUndefined (props !! "id")) with
  | Ok idText =>
      toResult env (JObj props)
      = Ok (mkResult ("https://pinterest.com/pin/" +:+ idText +:+ "/")
              (default JUndefined (props !! "image_large_url"))
              (default JUndefined (props !! "description")))
  | Throw e => toResult env (JObj props) = Throw e
  end
  /\
  exists message, toResult env JNull = Throw (TypeError message).
Proof.
  split.
  - unfold toResult, mbind, Res_bind. simpl.
    destruct (ToString env (default JUndefined (props !! "id"))); reflexivity.
  - eexists. reflexivity.
Qed.

(** X11.  Under HTTP 200 the guard of lines 178-183 does not protect
    the reads that follow it: a body that is [null] makes the call
    throw a [TypeError] while the guard is evaluated, and a [data] that
    passes the guard without being an array (a string that is not
    empty) makes it throw a [TypeError] at [map].  Neither is reported
    as ['search failed']. *)
Theorem pinterestResults_unguarded (rsp : Response) :
  rspStatus rsp = 200 ->
  (rspJson rsp = Ok JNull ->
   exists message, pinterestResults env rsp = Throw (TypeError message))
  /\
  (forall props text,
      rspJson rsp = Ok (JObj props) ->
      props !! "status" = Some (JStr "success") ->
      props !! "data" = Some (JStr text) ->
      text <> "" ->
      pinterestResults env rsp
      = Throw (TypeError "response.data.map is not a function")).
Proof.
  intros Hstatus. split.
  - intros Hjson. unfold pinterestResults, mbind, Res_bind.
    rewrite Hjson, Hstatus. eexists. reflexivity.
  - intros props text Hjson Hst Hdata Hne.
    unfold pinterestResults, searchFailed, mbind, Res_bind.
    rewrite Hjson, Hstatus. simpl. rewrite Hst, Hdata. simpl.
    destruct (String.eqb_spec text "") as [-> | _]; [contradiction |]. simpl.
    destruct text as [| c text]; [contradiction |]. reflexivity.
Qed.

End PinterestMore.

(** ** More on [initSearch] *)

Section OrchestratorMore.

Variable env : Env.

Lemma adaptForSearch_other_asset (engine : string) (task : Task) (stored : Image) :
  assetType (search task) <> "image" ->
  adaptForSearch env engine task stored = Ok stored.
Proof.
  intros H. unfold adaptForSearch.
  destruct (String.eqb_spec (assetType (search task)) "image"); [contradiction | reflexivity].
Qed.

(** Once the image is there and adapted, the run is the run of the
    search function, followed by the [catch] block if it throws. *)
Lemma initSearch_search_entered {A : Type} (searchFn : SearchArgs -> M A)
    (engine taskId : string) (task : Task) (stored upload : Image) (w : World) :
  waitForDocumentLoad env = Ok tt ->
  taskReply env taskId = Ok (Some task) ->
  imageReply env (imageId task) = Ok (Some stored) ->
  adaptForSearch env engine task stored = Ok upload ->
  let storageIds := fresh (dom (arrays w)) in
  let args := mkArgs (session task) (search task) upload storageIds in
  initSearch env searchFn engine taskId w
  = match searchFn args (searchEntered taskId task args w) with
    | (Ok _, w2) => (Ok tt, w2)
    | (Throw err, w2) => onError env engine storageIds err w2
    end.
Proof.
  intros Hload Htask Himage Hadapt storageIds args.
  rewrite (initSearch_task env searchFn engine taskId task w Hload Htask).
  unfold tryCatch.
  rewrite (trySearch_search env searchFn engine task _ _ stored upload Himage Hadapt).
  cbv zeta. fold storageIds. fold args.
  replace (mkWorld _ _) with (searchEntered taskId task args w).
  - destruct (searchFn args _) as [[r | err] w2]; reflexivity.
  - unfold searchEntered, taskFetched. cbn [trace arrays].
    rewrite <- app_assoc. reflexivity.
Qed.

(** The run when the image request or the adaptation fails with [err]. *)
Lemma initSearch_fails_early {A : Type} (searchFn : SearchArgs -> M A)
    (engine taskId : string) (task : Task) (err : JsError) (w : World) :
  waitForDocumentLoad env = Ok tt ->
  taskReply env taskId = Ok (Some task) ->
  (imageReply env (imageId task) = Throw err \/
   exists stored,
     imageReply env (imageId task) = Ok (Some stored) /\
     adaptForSearch env engine task stored = Throw err) ->
  initSearch env searchFn engine taskId w
  = (Throw err,
     mkWorld (<[fresh (dom (arrays w)) := []]> (arrays (taskFetched taskId task w)))
       (trace w
          ++ [RuntimeSend (storageRequest taskId);
              LargeSend (storageRequest (imageId task));
              RuntimeSend (storageReceipt [taskId; imageId task]);
              RuntimeSend (engineNotification env (classify engine err));
              ConsoleLog (errToString err)])).
Proof.
  intros Hload Htask Hsource.
  rewrite (initSearch_task env searchFn engine taskId task w Hload Htask).
  unfold tryCatch.
  assert (Htry : trySearch env searchFn engine task (fresh (dom (arrays w)))
                   (taskFetched taskId task w)
                 = (Throw err,
                    mkWorld (arrays (taskFetched taskId task w))
                      (trace (taskFetched taskId task w)
                         ++ [LargeSend (storageRequest (imageId task))]))).
  { destruct Hsource as [Himage | (stored & Himage & Hadapt)].
    - apply (trySearch_image_fails env). exact Himage.
    - eapply (trySearch_adaptation_fails env); eassumption. }
  rewrite Htry, onError_run.
  destruct (receiptEvents_held (fresh (dom (arrays w))) [taskId; imageId task]
              (mkWorld (arrays (taskFetched taskId task w))
                 (trace (taskFetched taskId task w)
                    ++ [LargeSend (storageRequest (imageId task))])))
    as [Hevents Hclear]; [apply taskFetched_keys | discriminate |].
  rewrite Hevents. cbn [arrays] in Hclear. cbn [arrays trace]. rewrite Hclear.
  unfold taskFetched. cbn [trace]. rewrite <- !app_assoc. reflexivity.
Qed.

(** The run when the task is in storage and its image is not. *)
Lemma initSearch_no_image {A : Type} (searchFn : SearchArgs -> M A)
    (engine taskId : string) (task : Task) (w : World) :
  waitForDocumentLoad env = Ok tt ->
  taskReply env taskId = Ok (Some task) ->
  imageReply env (imageId task) = Ok None ->
  initSearch env searchFn engine taskId w
  = (Ok tt,
     mkWorld (<[fresh (dom (arrays w)) := []]> (arrays (taskFetched taskId task w)))
       (trace w
          ++ [RuntimeSend (storageRequest taskId);
              LargeSend (storageRequest (imageId task));
              RuntimeSend (storageReceipt [taskId; imageId task]);
              RuntimeSend (sessionExpiredNotification env engine)])).
Proof.
  intros Hload Htask Himage.
  rewrite (initSearch_task env searchFn engine taskId task w Hload Htask).
  unfold tryCatch. rewrite (trySearch_no_image env) by assumption.
  destruct (receiptEvents_held _ _ _ (taskFetched_keys taskId task w)) as [-> ->];
    [discriminate |].
  simpl. rewrite <- app_assoc. reflexivity.
Qed.

(** X12.  An error before the task is known (the document does not
    load, or the request for the task is rejected) goes to the caller
    as it is and unannounced: no notification, no receipt, no console
    line, the arrays untouched, and at most the request for the task
    sent. *)
Theorem initSearch_fails_before_task {A : Type} (searchFn : SearchArgs -> M A)
    (engine taskId : string) (w : World) (e : JsError) :
  waitForDocumentLoad env = Throw e \/
  (waitForDocumentLoad env = Ok tt /\ taskReply env taskId = Throw e) ->
  exists w',
    initSearch env searchFn engine taskId w = (Throw e, w') /\
    arrays w' = arrays w /\
    (added w w' = [] \/ added w w' = [RuntimeSend (storageRequest taskId)]) /\
    List.filter isNotification (added w w') = [] /\
    List.filter isReceipt (added w w') = [] /\
    List.filter isConsoleLog (added w w') = [].
Proof.
  intros [Hload | [Hload Htask]].
  - exists w. split; [apply (initSearch_not_loaded env); exact Hload |].
    rewrite (added_app w w []) by (symmetry; apply app_nil_r). auto 10.
  - eexists. split; [apply (initSearch_request_fails env); assumption |].
    erewrite added_app by (cbn [trace]; reflexivity). auto 10.
Qed.

(** X13.  An asset that is not an image is not adapted: the search
    function is entered with the stored image as it is, however large,
    and the run is then that of the search function, followed by the
    [catch] block if it throws. *)
Theorem initSearch_other_asset {A : Type} (searchFn : SearchArgs -> M A)
    (engine taskId : string) (task : Task) (stored : Image) (w : World) :
  waitForDocumentLoad env = Ok tt ->
  taskReply env taskId = Ok (Some task) ->
  imageReply env (imageId task) = Ok (Some stored) ->
  assetType (search task) <> "image" ->
  let storageIds := fresh (dom (arrays w)) in
  let args := mkArgs (session task) (search task) stored storageIds in
  initSearch env searchFn engine taskId w
  = match searchFn args (searchEntered taskId task args w) with
    | (Ok _, w2) => (Ok tt, w2)
    | (Throw err, w2) => onError env engine storageIds err w2
    end.
Proof.
  intros Hload Htask Himage Hasset.
  exact (initSearch_search_entered searchFn engine taskId task stored stored w
           Hload Htask Himage (adaptForSearch_other_asset engine task stored Hasset)).
Qed.

(** The entries into the search function in a run that found its task:
    one, when the image is there and its adaptation succeeds, none
    otherwise. *)
Lemma initSearch_invocations {A : Type} (searchFn : SearchArgs -> M A)
    (engine taskId : string) (task : Task) (w : World) :
  waitForDocumentLoad env = Ok tt ->
  taskReply env taskId = Ok (Some task) ->
  addsNo isInvoke searchFn ->
  List.filter isInvoke (added w (snd (initSearch env searchFn engine taskId w)))
  = match imageReply env (imageId task) with
    | Ok (Some stored) =>
        match adaptForSearch env engine task stored with
        | Ok upload =>
            [Invoke (mkArgs (session task) (search task) upload (fresh (dom (arrays w))))]
        | Throw _ => []
        end
    | _ => []
    end.
Proof.
  intros Hload Htask Hquiet.
  destruct (imageReply env (imageId task)) as [[stored |] | e] eqn:Himage.
  - destruct (adaptForSearch env engine task stored) as [upload | e] eqn:Hadapt.
    + rewrite (initSearch_search_entered searchFn engine taskId task stored upload w
                 Hload Htask Himage Hadapt).
      cbv zeta.
      set (args := mkArgs (session task) (search task) upload (fresh (dom (arrays w)))).
      destruct (Hquiet args (searchEntered taskId task args w)) as (events & Htrace & Hnone).
      destruct (searchFn args (searchEntered taskId task args w)) as [[r | err] w2];
        cbn [snd] in *.
      * rewrite (added_app w w2
                   ([RuntimeSend (storageRequest taskId);
                     LargeSend (storageRequest (imageId task)); Invoke args] ++ events)).
        -- rewrite List.filter_app, Hnone. reflexivity.
        -- rewrite Htrace. unfold searchEntered. cbn [trace].
           rewrite <- app_assoc. reflexivity.
      * rewrite onError_run. cbn [snd].
        destruct (receiptEvents_no_notification (fresh (dom (arrays w))) w2)
          as (_ & Hreceipts & _).
        erewrite (added_app w _
                    ([RuntimeSend (storageRequest taskId);
                      LargeSend (storageRequest (imageId task)); Invoke args]
                       ++ events ++ receiptEvents (fresh (dom (arrays w))) w2
                       ++ [RuntimeSend (engineNotification env (classify engine err));
                           ConsoleLog (errToString err)])).
        -- rewrite !List.filter_app, Hnone, Hreceipts. reflexivity.
        -- cbn [trace]. rewrite Htrace. unfold searchEntered. cbn [trace].
           rewrite <- !app_assoc. reflexivity.
    + rewrite (initSearch_fails_early searchFn engine taskId task e w Hload Htask)
        by (right; exists stored; auto).
      cbn [snd]. erewrite added_app by (cbn [trace]; reflexivity). reflexivity.
  - rewrite (initSearch_no_image searchFn engine taskId task w Hload Htask Himage).
    cbn [snd]. erewrite added_app by (cbn [trace]; reflexivity). reflexivity.
  - rewrite (initSearch_fails_early searchFn engine taskId task e w Hload Htask)
      by (left; exact Himage).
    cbn [snd]. erewrite added_app by (cbn [trace]; reflexivity). reflexivity.
Qed.

Lemma elem_of_filter_Invoke (args : SearchArgs) (events : list Event) :
  Invoke args ∈ events <-> Invoke args ∈ List.filter isInvoke events.
Proof.
  rewrite !list_elem_of_In, List.filter_In. simpl. tauto.
Qed.


(** X15.  With an image asset, a configured limit and a conversion
    engine that keeps to the size it is asked for, no search function
    is ever entered with an image over the limit. *)
Theorem initSearch_invokes_within_limit {A : Type} (searchFn : SearchArgs -> M A)
    (engine taskId : string) (task : Task) (limit : Z) (w : World) :
  waitForDocumentLoad env = Ok tt ->
  taskReply env taskId = Ok (Some task) ->
  assetType (search task) = "image" ->
  getMaxImageUploadSize env engine None = Some limit ->
  limit <> 0 ->
  conversionWithinLimit env ->
  addsNo isInvoke searchFn ->
  invokedWithin limit (added w (snd (initSearch env searchFn engine taskId w))).
Proof.
  intros Hload Htask Hasset Hlimit Hnz Hcontract Hquiet args Hin.
  apply elem_of_filter_Invoke in Hin.
  rewrite (initSearch_invocations searchFn engine taskId task w Hload Htask Hquiet) in Hin.
  destruct (imageReply env (imageId task)) as [[stored |] | e]; try (inversion Hin; fail).
  destruct (adaptForSearch env engine task stored) as [upload | e] eqn:Hadapt;
    [| inversion Hin].
  apply list_elem_of_singleton in Hin. injection Hin as ->. cbn [argImage].
  unfold adaptForSearch in Hadapt. rewrite Hasset in Hadapt. simpl in Hadapt.
  exact (prepared_size_within env stored upload engine None "" true limit
           Hcontract Hlimit Hnz Hadapt).
Qed.


(** X17.  In a run that found its task the image is asked for first:
    the request for the image follows the request for the task at once,
    before any receipt, notification or entry into the search
    function. *)
Theorem initSearch_requests_image_first {A : Type} (searchFn : SearchArgs -> M A)
    (engine taskId : string) (task : Task) (w : World) :
  waitForDocumentLoad env = Ok tt ->
  taskReply env taskId = Ok (Some task) ->
  extendsTrace searchFn ->
  exists rest,
    added w (snd (initSearch env searchFn engine taskId w))
    = [RuntimeSend (storageRequest taskId);
       LargeSend (storageRequest (imageId task))] ++ rest.
Proof.
  intros Hload Htask Hextends.
  destruct (imageReply env (imageId task)) as [[stored |] | e] eqn:Himage.
  - destruct (adaptForSearch env engine task stored) as [upload | e] eqn:Hadapt.
    + rewrite (initSearch_search_entered searchFn engine taskId task stored upload w
                 Hload Htask Himage Hadapt).
      cbv zeta.
      set (args := mkArgs (session task) (search task) upload (fresh (dom (arrays w)))).
      destruct (Hextends args (searchEntered taskId task args w)) as (events & Htrace & _).
      destruct (searchFn args (searchEntered taskId task args w)) as [[r | err] w2];
        cbn [snd] in *.
      * exists ([Invoke args] ++ events). apply added_app.
        rewrite Htrace. unfold searchEntered. cbn [trace].
        rewrite <- app_assoc. reflexivity.
      * rewrite onError_run. cbn [snd].
        eexists ([Invoke args] ++ events ++ _). apply added_app.
        cbn [trace]. rewrite Htrace. unfold searchEntered. cbn [trace].
        rewrite <- !app_assoc. reflexivity.
    + rewrite (initSearch_fails_early searchFn engine taskId task e w Hload Htask)
        by (right; exists stored; auto).
      cbn [snd]. eexists. apply added_app. cbn [trace]. reflexivity.
  - rewrite (initSearch_no_image searchFn engine taskId task w Hload Htask Himage).
    cbn [snd]. eexists. apply added_app. cbn [trace]. reflexivity.
  - rewrite (initSearch_fails_early searchFn engine taskId task e w Hload Htask)
      by (left; exact Himage).
    cbn [snd]. eexists. apply added_app. cbn [trace]. reflexivity.
Qed.

(** X18.  A run with [searchPinterest] that succeeds: the two requests
    to storage, the entry into the search function, the request to the
    provider, and nothing else.  The results are not handed to the
    caller, no receipt is sent and the array still holds both keys. *)
Theorem initSearch_searchPinterest_success (engine taskId : string) (task : Task)
    (stored upload : Image) (rsp : Response) (results : list SearchResult) (w : World) :
  waitForDocumentLoad env = Ok tt ->
  taskReply env taskId = Ok (Some task) ->
  imageReply env (imageId task) = Ok (Some stored) ->
  adaptForSearch env engine task stored = Ok upload ->
  let storageIds := fresh (dom (arrays w)) in
  let args := mkArgs (session task) (search task) upload storageIds in
  answered env args rsp ->
  pinterestResults env rsp = Ok results ->
  exists body w',
    pinterestForm upload = Ok body /\
    initSearch env (searchPinterest env) engine taskId w = (Ok tt, w') /\
    added w w'
    = [RuntimeSend (storageRequest taskId);
       LargeSend (storageRequest (imageId task));
       Invoke args;
       Fetch (pinterestRequest body)] /\
    arrays w' !! storageIds = Some [taskId; imageId task].
Proof.
  intros Hload Htask Himage Hadapt storageIds args (body & Hform & Hfetch) Hres.
  exists body. eexists. split; [exact Hform |]. split.
  { rewrite (initSearch_search_entered (searchPinterest env) engine taskId task stored
               upload w Hload Htask Himage Hadapt).
    cbv zeta. fold storageIds. fold args.
    rewrite (searchPinterest_answered env args _ body rsp Hform Hfetch), Hres.
    reflexivity. }
  split.
  - apply added_app. unfold searchEntered. cbn [trace].
    rewrite <- app_assoc. reflexivity.
  - cbn [arrays searchEntered]. apply taskFetched_keys.
Qed.


End OrchestratorMore.

Lemma searchPinterest_addsNo (env : Env) (kind : Event -> bool) :
  (forall req, kind (Fetch req) = false) ->
  addsNo kind (searchPinterest env).
Proof.
  intros Hkind args w. unfold searchPinterest. run_M.
  destruct (pinterestForm (argImage args)) as [body |].
  - exists [Fetch (pinterestRequest body)]. simpl. rewrite Hkind.
    destruct (fetch env (pinterestRequest body)); auto.
  - exists []. simpl. rewrite app_nil_r. auto.
Qed.

Lemma sampleEnv_conversionWithinLimit (task : Res (option Task))
    (stored : Res (option Image)) (limit : option Z) (converted : option Image)
    (rsp : Res Response) :
  conversionWithinLimit (sampleEnv task stored limit converted rsp).
Proof.
  intros image options result. cbn [convertProcessedImage sampleEnv].
  destruct converted as [c |]; [| discriminate].
  destruct (Z.leb_spec (imageSize c) (maxSize options)) as [Hle | _]; [| discriminate].
  intros H. injection H as <-. exact Hle.
Qed.

(** ** [setFileInputData] *)



(** ** The further properties on concrete runs *)

(** Two arrays holding the same key. *)
Lemma sendReceipt_per_array_witness :
  let w := mkWorld {[ 0%nat := ["k"]; 1%nat := ["k"] ]} [] in
  arrays (snd (sendReceipt 0 w)) !! 1%nat = Some ["k"] /\
  added w (snd ((sendReceipt 0;; sendReceipt 1) w))
  = [RuntimeSend (storageReceipt ["k"]); RuntimeSend (storageReceipt ["k"])].
Proof.
  intros w.
  destruct (sendReceipt_per_array 0 1 w ltac:(discriminate)) as [Hframe Hboth].
  split.
  - rewrite Hframe. reflexivity.
  - rewrite (Hboth ["k"] ltac:(discriminate) eq_refl eq_refl). reflexivity.
Defined.


Lemma prepareImageForUpload_fits_witness :
  let env := sampleEnv (Ok None) (Ok None) (Some 1048576) (Some sampleConverted)
               (Throw (Error "offline")) in
  prepareImageForUpload env sampleImage "pinterest" None "" true = Ok sampleConverted /\
  imageSize sampleConverted <= 1048576.
Proof.
  intros env. split; [reflexivity |].
  apply (prepareImageForUpload_fits env sampleImage sampleConverted "pinterest" None "" true
           1048576).
  - apply sampleEnv_conversionWithinLimit.
  - reflexivity.
  - lia.
  - reflexivity.
Defined.

Lemma prepareImageForUpload_again_witness :
  let env := sampleEnv (Ok None) (Ok None) (Some 1048576) (Some sampleConverted)
               (Throw (Error "offline")) in
  exists again,
    prepareImageForUpload env sampleConverted "pinterest" None "" true = Ok again /\
    imageDataUrl again = imageDataUrl sampleConverted /\
    imageFilename again = imageFilename sampleConverted /\
    imageType again = imageType sampleConverted /\
    imageSize again = imageSize sampleConverted /\
    (true = false -> again = sampleConverted).
Proof.
  intros env.
  apply (prepareImageForUpload_again env sampleImage sampleConverted "pinterest" None ""
           true).
  - apply sampleEnv_conversionWithinLimit.
  - reflexivity.
Defined.

Lemma searchPinterest_results_nonempty_witness :
  let env := sampleEnv (Ok None) (Ok None) None None (Ok (mkResponse 200 (Ok sampleBody))) in
  let args := mkArgs JNull (mkSearch "image" JUndefined) sampleConverted 0%nat in
  exists results,
    fst (searchPinterest env args emptyWorld) = Ok results /\ results <> [].
Proof.
  intros env args. eexists. split; [vm_compute; reflexivity |].
  apply (searchPinterest_results_nonempty env args emptyWorld
           (snd (searchPinterest env args emptyWorld))).
  vm_compute. reflexivity.
Defined.

Lemma pinterestResults_unguarded_witness :
  let env := sampleEnv (Ok None) (Ok None) None None (Throw (Error "offline")) in
  exists message,
    pinterestResults env (mkResponse 200 (Ok JNull)) = Throw (TypeError message).
Proof.
  intros env.
  destruct (pinterestResults_unguarded env (mkResponse 200 (Ok JNull)) eq_refl)
    as [Hnull _].
  apply Hnull. reflexivity.
Defined.

(** The request for the task is rejected. *)
Lemma initSearch_fails_before_task_witness :
  let env := sampleEnv (Throw (Error "bus closed")) (Ok None) None None
               (Throw (Error "offline")) in
  exists w',
    initSearch env (searchPinterest env) "pinterest" "t1" emptyWorld
    = (Throw (Error "bus closed"), w') /\
    arrays w' = arrays emptyWorld /\
    (added emptyWorld w' = [] \/ added emptyWorld w' = [RuntimeSend (storageRequest "t1")]) /\
    List.filter isNotification (added emptyWorld w') = [] /\
    List.filter isReceipt (added emptyWorld w') = [] /\
    List.filter isConsoleLog (added emptyWorld w') = [].
Proof.
  intros env.
  apply (initSearch_fails_before_task env (searchPinterest env) "pinterest" "t1" emptyWorld).
  right. split; reflexivity.
Defined.

(** A 2 MiB image of a task that is not about an image, under a 1 MiB
    limit: it reaches the search function as it is. *)
Lemma initSearch_other_asset_witness :
  let env := sampleEnv (Ok (Some sampleUrlTask)) (Ok (Some sampleImage)) (Some 1048576) None
               (Throw (Error "offline")) in
  let searchFn := scriptedSearch env [] (Ok tt) in
  let args := mkArgs (session sampleUrlTask) (search sampleUrlTask) sampleImage
                (fresh (dom (arrays emptyWorld))) in
  initSearch env searchFn "pinterest" "t1" emptyWorld
  = match searchFn args (searchEntered "t1" sampleUrlTask args emptyWorld) with
    | (Ok _, w2) => (Ok tt, w2)
    | (Throw err, w2) => onError env "pinterest" (fresh (dom (arrays emptyWorld))) err w2
    end.
Proof.
  intros env searchFn args.
  apply (initSearch_other_asset env searchFn "pinterest" "t1" sampleUrlTask sampleImage
           emptyWorld).
  - reflexivity.
  - reflexivity.
  - reflexivity.
  - discriminate.
Defined.


Lemma initSearch_invokes_within_limit_witness :
  let env := sampleEnv (Ok (Some sampleTask)) (Ok (Some sampleImage)) (Some 1048576)
               (Some sampleConverted) (Ok (mkResponse 200 (Ok sampleBody))) in
  invokedWithin 1048576
    (added emptyWorld
       (snd (initSearch env (searchPinterest env) "pinterest" "t1" emptyWorld))).
Proof.
  intros env.
  apply (initSearch_invokes_within_limit env (searchPinterest env) "pinterest" "t1"
           sampleTask 1048576 emptyWorld).
  - reflexivity.
  - reflexivity.
  - reflexivity.
  - reflexivity.
  - lia.
  - apply sampleEnv_conversionWithinLimit.
  - apply searchPinterest_addsNo. reflexivity.
Defined.


Lemma initSearch_requests_image_first_witness :
  let env := sampleEnv (Ok (Some sampleTask)) (Ok None) None None (Throw (Error "offline")) in
  exists rest,
    added emptyWorld (snd (initSearch env (searchPinterest env) "pinterest" "t1" emptyWorld))
    = [RuntimeSend (storageRequest "t1"); LargeSend (storageRequest "i1")] ++ rest.
Proof.
  intros env.
  apply (initSearch_requests_image_first env (searchPinterest env) "pinterest" "t1"
           sampleTask emptyWorld).
  - reflexivity.
  - reflexivity.
  - apply searchPinterest_addsNo. reflexivity.
Defined.

Lemma initSearch_searchPinterest_success_witness :
  let rsp := mkResponse 200 (Ok sampleBody) in
  let env := sampleEnv (Ok (Some sampleTask)) (Ok (Some sampleImage)) (Some 1048576)
               (Some sampleConverted) (Ok rsp) in
  let args := mkArgs (session sampleTask) (search sampleTask) sampleConverted
                (fresh (dom (arrays emptyWorld))) in
  exists body w',
    pinterestForm sampleConverted = Ok body /\
    initSearch env (searchPinterest env) "pinterest" "t1" emptyWorld = (Ok tt, w') /\
    added emptyWorld w'
    = [RuntimeSend (storageRequest "t1");
       LargeSend (storageRequest "i1");
       Invoke args;
       Fetch (pinterestRequest body)] /\
    arrays w' !! fresh (dom (arrays emptyWorld)) = Some ["t1"; "i1"].
Proof.
  intros rsp env args.
  eapply (initSearch_searchPinterest_success env "pinterest" "t1" sampleTask sampleImage
            sampleConverted rsp _ emptyWorld).
  - reflexivity.
  - reflexivity.
  - reflexivity.
  - reflexivity.
  - eexists. split; reflexivity.
  - vm_compute. reflexivity.
Defined.


